(** * TDHF / TDA analytic nuclear gradients: a model of [pyscf/grad/tdrhf.py]

  The module-level function [kernel] and the method [Gradients.kernel] of
  [pyscf/grad/tdrhf.py] are embedded as Rocq functions.

  - numpy arrays are row-major nested lists; float64 scalars are idealised
    as exact rationals ([Qc]), so that every definition evaluates;
  - the collaborators that live in other files of the package ([mf.get_jk],
    [cphf.solve], the methods inherited from [rhf_grad.Gradients], the
    ground-state gradient method) are fields of records: the functions of
    this file are modelled for every value of those fields;
  - exceptions are the [Raise] results of [pyres]; logger calls are the
    events appended to the [stdout] field of the driver object. *)

From Stdlib Require Import String Bool Arith ZArith QArith Qcanon Lia List.
Import ListNotations.

Set Implicit Arguments.

(* ================================================================== *)
(** * Python results and sequence indexing *)
(* ================================================================== *)

Module Py.

Inductive exn : Type := IndexError.

Inductive pyres (A : Type) : Type :=
| Ok (a : A)
| Raise (e : exn).
Arguments Ok {A} a.
Arguments Raise {A} e.

Definition bind {A B} (r : pyres A) (k : A -> pyres B) : pyres B :=
  match r with
  | Ok a => k a
  | Raise e => Raise e
  end.

(** [l[i]] for a list and an [int]: a negative index counts from the end,
    anything outside [-len, len) raises [IndexError]. *)
Definition index {A} (l : list A) (i : Z) : pyres A :=
  let n := Z.of_nat (length l) in
  let j := if (i <? 0)%Z then (n + i)%Z else i in
  if ((0 <=? j) && (j <? n))%Z
  then match nth_error l (Z.to_nat j) with
       | Some a => Ok a
       | None => Raise IndexError
       end
  else Raise IndexError.

(** [for ... in l] with a body that may raise: stops at the first raise. *)
Fixpoint mapM {A B} (f : A -> pyres B) (l : list A) : pyres (list B) :=
  match l with
  | [] => Ok []
  | a :: l' => bind (f a) (fun b => bind (mapM f l') (fun bs => Ok (b :: bs)))
  end.

End Py.
Import Py.

(* ================================================================== *)
(** * The numpy operations used by the file *)
(* ================================================================== *)

Module Numpy.

Local Open Scope Qc_scope.

Abbreviation vec := (list Qc).
Abbreviation mat := (list (list Qc)).
Abbreviation tensor3 := (list (list (list Qc))).

(** The literals [.5] and [2]. *)
Definition half : Qc := Q2Qc (1 # 2).
Definition two : Qc := Q2Qc (2 # 1).

Definition at1 (v : vec) (i : nat) : Qc := nth i v 0.
Definition get (m : mat) (i j : nat) : Qc := nth j (nth i m []) 0.
Definition nrows (m : mat) : nat := length m.
Definition ncols (m : mat) : nat := length (hd [] m).

Definition tab1 (n : nat) (f : nat -> Qc) : vec := map f (seq 0 n).
Definition tab (r c : nat) (f : nat -> nat -> Qc) : mat :=
  map (fun i => tab1 c (f i)) (seq 0 r).

(** Sum over [range(n)]. *)
Definition sum_n (n : nat) (f : nat -> Qc) : Qc :=
  fold_right Qcplus 0 (map f (seq 0 n)).

Definition in_range (lo hi i : nat) : bool := (lo <=? i)%nat && (i <? hi)%nat.

(** [numpy.zeros((r,c))], [numpy.eye(n)]. *)
Definition zeros (r c : nat) : mat := tab r c (fun _ _ => 0).
Definition eye (n : nat) : mat := tab n n (fun i j => if (i =? j)%nat then 1 else 0).

(** [a.T]. *)
Definition T (a : mat) : mat := tab (ncols a) (nrows a) (fun i j => get a j i).

(** Elementwise operations of two arrays of one shape.  numpy raises
    [ValueError] or broadcasts when the shapes differ; here the shape of
    the left operand is kept and the right operand reads as 0 outside its
    bounds.  The two agree on operands of one shape, the only case the
    statements below speak about: see [Props.well_shaped]. *)
Definition zip (f : Qc -> Qc -> Qc) (a b : mat) : mat :=
  tab (nrows a) (ncols a) (fun i j => f (get a i j) (get b i j)).
Definition add : mat -> mat -> mat := zip Qcplus.
Definition sub : mat -> mat -> mat := zip Qcminus.
Definition mul : mat -> mat -> mat := zip Qcmult.
Definition neg (a : mat) : mat := map (map Qcopp) a.
(** [a * k] for a scalar [k]. *)
Definition muls (a : mat) (k : Qc) : mat := map (map (fun v => v * k)) a.

Definition vzip (f : Qc -> Qc -> Qc) (a b : vec) : vec :=
  tab1 (length a) (fun i => f (at1 a i) (at1 b i)).
Definition vadd : vec -> vec -> vec := vzip Qcplus.
Definition vsub : vec -> vec -> vec := vzip Qcminus.
Definition vmuls (a : vec) (k : Qc) : vec := map (fun v => v * k) a.

(** [numpy.dot(a, b)] and [reduce(numpy.dot, (a, b, c))], for [a] of shape
    [(r, n)] and [b] of shape [(n, c)]; numpy raises [ValueError] when the
    inner dimensions differ, where this sum runs over the columns of [a]. *)
Definition dot (a b : mat) : mat :=
  tab (nrows a) (ncols b) (fun i j => sum_n (ncols a) (fun k => get a i k * get b k j)).
Definition dot3 (a b c : mat) : mat := dot (dot a b) c.

(** [a.ravel()], [v.reshape(r,c)] of a flat array, [a.reshape(r,c)], for an
    array of [r*c] entries; numpy raises [ValueError] for any other size,
    where this table reads the first [r*c] entries and 0 beyond the end. *)
Definition ravel (a : mat) : vec := concat a.
Definition reshape_vec (r c : nat) (v : vec) : mat :=
  tab r c (fun i j => at1 v (i * c + j)).
Definition reshape (r c : nat) (a : mat) : mat := reshape_vec r c (ravel a).

(** Slices [a[:n]], [a[n:]], [a[p0:p1]], [a[:, :n]], [a[:, n:]],
    [a[:, p0:p1]] (non-negative bounds; numpy clips them to the shape). *)
Definition rows_to (n : nat) (a : mat) : mat := firstn n a.
Definition rows_from (n : nat) (a : mat) : mat := skipn n a.
Definition rows (p0 p1 : nat) (a : mat) : mat := skipn p0 (firstn p1 a).
Definition cols_to (n : nat) (a : mat) : mat := map (firstn n) a.
Definition cols_from (n : nat) (a : mat) : mat := map (skipn n) a.
Definition cols (p0 p1 : nat) (a : mat) : mat := map (fun r => skipn p0 (firstn p1 r)) a.

(** [m[r0:r1, c0:c1] = b], [m[r0:r1, c0:c1] += b], and the assignment of
    a one-dimensional [v], broadcast over the rows of the block. *)
Definition set_block (m : mat) (r0 r1 c0 c1 : nat) (b : mat) : mat :=
  tab (nrows m) (ncols m) (fun i j =>
    if in_range r0 r1 i && in_range c0 c1 j
    then get b (i - r0) (j - c0) else get m i j).
Definition iadd_block (m : mat) (r0 r1 c0 c1 : nat) (b : mat) : mat :=
  tab (nrows m) (ncols m) (fun i j =>
    if in_range r0 r1 i && in_range c0 c1 j
    then get m i j + get b (i - r0) (j - c0) else get m i j).
Definition set_block_bcast (m : mat) (r0 r1 c0 c1 : nat) (v : vec) : mat :=
  tab (nrows m) (ncols m) (fun i j =>
    if in_range r0 r1 i && in_range c0 c1 j
    then at1 v (j - c0) else get m i j).

(** [lib.direct_sum('i+j->ij', u, v)]. *)
Definition direct_sum (u v : vec) : mat :=
  tab (length u) (length v) (fun i j => at1 u i + at1 v j).

(** The two-operand contractions of the file, named by their subscripts:
    ['ai,bi->ab'], ['ai,aj->ij'] and ['ki,ai->ak'], for operands whose
    shared dimensions agree (numpy raises [ValueError] otherwise; the sums
    here take their bound from one operand). *)
Definition einsum_ai_bi_ab (a b : mat) : mat :=
  tab (nrows a) (nrows b) (fun p q => sum_n (ncols a) (fun i => get a p i * get b q i)).
Definition einsum_ai_aj_ij (a b : mat) : mat :=
  tab (ncols a) (ncols b) (fun i j => sum_n (nrows a) (fun p => get a p i * get b p j)).
Definition einsum_ki_ai_ak (v x : mat) : mat :=
  tab (nrows x) (nrows v) (fun p k => sum_n (ncols v) (fun i => get v k i * get x p i)).
(** ['ak,ai->ki'] and ['ac,ai->ci'] are ['ai,aj->ij'] with other letters;
    ['ci,ai->ac'] is ['ki,ai->ak']. *)
Definition einsum_ak_ai_ki : mat -> mat -> mat := einsum_ai_aj_ij.
Definition einsum_ac_ai_ci : mat -> mat -> mat := einsum_ai_aj_ij.
Definition einsum_ci_ai_ac : mat -> mat -> mat := einsum_ki_ai_ak.

(** ['xpq,pq->x'] (also written ['xij,ij->x']) and ['xqp,pq->x'] (also
    ['xji,ij->x']). *)
Definition einsum_xpq_pq_x (t : tensor3) (m : mat) : vec :=
  map (fun tx => sum_n (nrows m) (fun p => sum_n (ncols m) (fun q => get tx p q * get m p q))) t.
Definition einsum_xqp_pq_x (t : tensor3) (m : mat) : vec :=
  map (fun tx => sum_n (nrows m) (fun p => sum_n (ncols m) (fun q => get tx q p * get m p q))) t.

(** Operations on [(3, n, n)] arrays, one Cartesian component at a time. *)
Definition t3_zip (f : mat -> mat -> mat) (a b : tensor3) : tensor3 :=
  map (fun x => f (nth x a []) (nth x b [])) (seq 0 (length a)).
Definition t3_rows (p0 p1 : nat) (t : tensor3) : tensor3 := map (rows p0 p1) t.
(** [t.transpose(0,2,1)]. *)
Definition t3_transpose021 (t : tensor3) : tensor3 := map T t.
(** [h[:, p0:p1] += v] and [h[:, :, p0:p1] += v]. *)
Definition t3_iadd_rows (h : tensor3) (p0 p1 : nat) (v : tensor3) : tensor3 :=
  t3_zip (fun hx vx => iadd_block hx p0 p1 0 (ncols hx) vx) h v.
Definition t3_iadd_cols (h : tensor3) (p0 p1 : nat) (v : tensor3) : tensor3 :=
  t3_zip (fun hx vx => iadd_block hx 0 (nrows hx) p0 p1 vx) h v.

(** [(o > 0)] on a scalar. *)
Definition gt0 (o : Qc) : bool :=
  match (0 ?= o) with Lt => true | _ => false end.

(** The canonical representatives, for comparing computed arrays. *)
Definition vrepr (v : vec) : list Q := map this v.
Definition mrepr (m : mat) : list (list Q) := map vrepr m.

End Numpy.
Import Numpy.

(* ================================================================== *)
(** * [pyscf/grad/tdrhf.py] *)
(* ================================================================== *)

Module Tdrhf.

Local Open Scope Qc_scope.

(** Calls of [logger.warn], [logger.note] and the timers, in call order.
    A row of the result table keeps its arguments instead of the text
    formatted with ['%d %s  %15.9f  %15.9f  %15.9f']. *)
Inductive event : Type :=
| Warn (msg : string)
| Note (msg : string)
| NoteRow (ia : nat) (symbol : string) (x y z : Qc)
| Timer (label : string).

(** The molecule: [mol.natm], [mol.offset_nr_by_atom()] (one
    [(shl0, shl1, p0, p1)] per atom) and [mol.atom_symbol]. *)
Record Mole : Type := {
  natm : nat;
  offset_nr_by_atom : list (nat * nat * nat * nat);
  atom_symbol : nat -> string
}.

(** The ground-state reference [mf]: its orbitals, [mf.get_jk] for one
    density matrix (a tuple of densities is served one by one), and
    [mf.nuc_grad_method().kernel(atmlst=...)]. *)
Record SCF : Type := {
  mo_coeff : mat;
  mo_energy : vec;
  mo_occ : vec;
  get_jk : mat -> mat * mat;
  nuc_grad_method_kernel : option (list nat) -> pyres mat
}.

(** The excited-state solver [td]: [td._scf], [td.xy], [td.singlet]. *)
Record TD : Type := {
  td_scf : SCF;
  xy : list (mat * mat);
  td_singlet : bool
}.

(** What [tdrhf.py] calls and does not define: [cphf.solve] (its first
    result), and the methods that [Gradients] inherits from
    [rhf_grad.Gradients]: [hcore_generator(mol)], [get_ovlp(mol)],
    [get_jk(mol, dm)] for one density (three Cartesian components),
    [grad_nuc(atmlst=...)], and the warnings of [check_sanity()]. *)
Record External : Type := {
  cphf_solve : (vec -> vec) -> vec -> vec -> mat -> nat -> Qc -> mat;
  hcore_generator : nat -> tensor3;
  get_ovlp : tensor3;
  grad_get_jk : mat -> tensor3 * tensor3;
  grad_nuc : list nat -> mat;
  check_sanity : list event
}.

(** The value of [self.de]: the integer [0] set by [__init__], then the
    array stored by [kernel]. *)
Inductive de_value : Type :=
| DeInit
| DeArray (a : mat).

(** An instance of [class Gradients]. *)
Record Gradients : Type := {
  mol : Mole;
  _td : TD;
  ext : External;
  cphf_max_cycle : nat;
  cphf_conv_tol : Qc;
  de : de_value;
  stdout : list event
}.

(** [self._scf = td._scf]. *)
Definition _scf (self : Gradients) : SCF := td_scf (_td self).

(** The class defaults [cphf_max_cycle = 20], [cphf_conv_tol = 1e-8]
    and [__init__]. *)
Definition default_cphf_max_cycle : nat := 20.
Definition default_cphf_conv_tol : Qc := Q2Qc (1 # 100000000).

Definition init (m : Mole) (td : TD) (e : External) : Gradients :=
  {| mol := m; _td := td; ext := e;
     cphf_max_cycle := default_cphf_max_cycle;
     cphf_conv_tol := default_cphf_conv_tol;
     de := DeInit; stdout := [] |}.

Definition log (self : Gradients) (evs : list event) : Gradients :=
  {| mol := mol self; _td := _td self; ext := ext self;
     cphf_max_cycle := cphf_max_cycle self;
     cphf_conv_tol := cphf_conv_tol self;
     de := de self; stdout := stdout self ++ evs |}.

Definition set_de (self : Gradients) (a : mat) : Gradients :=
  {| mol := mol self; _td := _td self; ext := ext self;
     cphf_max_cycle := cphf_max_cycle self;
     cphf_conv_tol := cphf_conv_tol self;
     de := DeArray a; stdout := stdout self |}.

(** A batched J/K build: one [(vj, vk)] pair of lists for a tuple of
    densities. *)
Definition jk_batch {A} (jk : mat -> A * A) (dms : list mat) : list A * list A :=
  (map (fun dm => fst (jk dm)) dms, map (fun dm => snd (jk dm)) dms).

(** ** Lines 43-62: orbital blocks and the difference densities *)

Record Densities : Type := {
  xpy : mat; xmy : mat;
  dvv : mat; doo : mat;
  dmzvop : mat; dmzvom : mat; dmzoo : mat
}.

(** [nocc = (mo_occ>0).sum()]. *)
Definition count_nocc (occ : vec) : nat := length (filter gt0 occ).

Definition densities (c : mat) (nocc nvir : nat) (x_y : mat * mat) : Densities :=
  let '(x, y) := x_y in
  let xpy := T (reshape nocc nvir (add x y)) in
  let xmy := T (reshape nocc nvir (sub x y)) in
  let orbv := cols_from nocc c in
  let orbo := cols_to nocc c in
  let dvv := add (einsum_ai_bi_ab xpy xpy) (einsum_ai_bi_ab xmy xmy) in
  let doo := sub (neg (einsum_ai_aj_ij xpy xpy)) (einsum_ai_aj_ij xmy xmy) in
  let dmzvop := dot3 orbv xpy (T orbo) in
  let dmzvom := dot3 orbv xmy (T orbo) in
  let dmzoo := dot3 orbo doo (T orbo) in
  let dmzoo := add dmzoo (dot3 orbv dvv (T orbv)) in
  {| xpy := xpy; xmy := xmy; dvv := dvv; doo := doo;
     dmzvop := dmzvop; dmzvom := dmzvom; dmzoo := dmzoo |}.

(** ** Lines 64-77: the effective-Fock intermediates and the CPHF
    right-hand side *)

Record Veff : Type := {
  veff0doo : mat; veff0mop : mat; veff0mom : mat; wvo : mat
}.

Definition veff_build (jk : list mat -> list mat * list mat) (c : mat) (nocc : nat)
           (singlet : bool) (d : Densities) : Veff :=
  let orbv := cols_from nocc c in
  let orbo := cols_to nocc c in
  let '(vj, vk) :=
    jk [dmzoo d; add (dmzvop d) (T (dmzvop d)); sub (dmzvom d) (T (dmzvom d))] in
  let veff0doo := sub (muls (nth 0 vj []) two) (nth 0 vk []) in
  let wvo := muls (dot3 (T orbv) veff0doo orbo) two in
  let veff :=
    if singlet then sub (muls (nth 1 vj []) two) (nth 1 vk [])
    else neg (nth 1 vk []) in
  let veff0mop := dot3 (T c) veff c in
  let wvo := sub wvo (muls (einsum_ki_ai_ak (cols_to nocc (rows_to nocc veff0mop)) (xpy d)) two) in
  let wvo := add wvo (muls (einsum_ac_ai_ci (cols_from nocc (rows_from nocc veff0mop)) (xpy d)) two) in
  let veff := neg (nth 2 vk []) in
  let veff0mom := dot3 (T c) veff c in
  let wvo := sub wvo (muls (einsum_ki_ai_ak (cols_to nocc (rows_to nocc veff0mom)) (xmy d)) two) in
  let wvo := add wvo (muls (einsum_ac_ai_ci (cols_from nocc (rows_from nocc veff0mom)) (xmy d)) two) in
  {| veff0doo := veff0doo; veff0mop := veff0mop; veff0mom := veff0mom; wvo := wvo |}.

(** ** Lines 78-85: the response function and the Z-vector *)

Definition fvind (jk : mat -> mat * mat) (c : mat) (nocc nvir : nat) (x : vec) : vec :=
  let orbv := cols_from nocc c in
  let orbo := cols_to nocc c in
  let dm := dot3 orbv (reshape_vec nvir nocc x) (T orbo) in
  let '(vj, vk) := jk (add dm (T dm)) in
  ravel (dot3 (T orbv) (sub (muls vj two) vk) orbo).

Definition zvector (td_grad : Gradients) (jk : mat -> mat * mat)
           (nocc nvir : nat) (w : mat) : mat :=
  let mf := td_scf (_td td_grad) in
  let z1 := cphf_solve (ext td_grad) (fvind jk (mo_coeff mf) nocc nvir)
              (mo_energy mf) (mo_occ mf) w
              (cphf_max_cycle td_grad) (cphf_conv_tol td_grad) in
  reshape nvir nocc z1.

(** ** Lines 88-109: the energy-weighted Lagrangian *)

Record Lagrangian : Type := {
  z1ao : mat;
  zeta : mat;
  dm1 : mat;
  im0_mo : mat;   (* [im0] before line 109 *)
  im0 : mat       (* [im0] after line 109, in the AO basis *)
}.

Definition lagrangian (jk : mat -> mat * mat) (c : mat) (e : vec)
           (nocc nmo : nat) (d : Densities) (v : Veff) (z1 : mat) : Lagrangian :=
  let orbv := cols_from nocc c in
  let orbo := cols_to nocc c in
  let z1ao := dot3 orbv z1 (T orbo) in
  let '(vj, vk) := jk z1ao in
  let veff := sub (muls vj two) vk in
  let im0 := zeros nmo nmo in
  let im0 := set_block im0 0 nocc 0 nocc (dot3 (T orbo) (add (veff0doo v) veff) orbo) in
  let im0 := iadd_block im0 0 nocc 0 nocc
               (einsum_ak_ai_ki (cols_to nocc (rows_from nocc (veff0mop v))) (xpy d)) in
  let im0 := iadd_block im0 0 nocc 0 nocc
               (einsum_ak_ai_ki (cols_to nocc (rows_from nocc (veff0mom v))) (xmy d)) in
  let im0 := set_block im0 nocc nmo nocc nmo
               (einsum_ci_ai_ac (cols_to nocc (rows_from nocc (veff0mop v))) (xpy d)) in
  let im0 := iadd_block im0 nocc nmo nocc nmo
               (einsum_ci_ai_ac (cols_to nocc (rows_from nocc (veff0mom v))) (xmy d)) in
  let im0 := set_block im0 nocc nmo 0 nocc
               (muls (einsum_ki_ai_ak (cols_to nocc (rows_to nocc (veff0mop v))) (xpy d)) two) in
  let im0 := iadd_block im0 nocc nmo 0 nocc
               (muls (einsum_ki_ai_ak (cols_to nocc (rows_to nocc (veff0mom v))) (xmy d)) two) in
  let zeta := muls (direct_sum e e) half in
  let zeta := set_block_bcast zeta nocc (nrows zeta) 0 nocc (firstn nocc e) in
  let zeta := set_block_bcast zeta 0 nocc nocc (ncols zeta) (skipn nocc e) in
  let dm1 := zeros nmo nmo in
  let dm1 := set_block dm1 0 nocc 0 nocc (doo d) in
  let dm1 := set_block dm1 nocc nmo nocc nmo (dvv d) in
  let dm1 := set_block dm1 nocc nmo 0 nocc z1 in
  let dm1 := iadd_block dm1 0 nocc 0 nocc (muls (eye nocc) two) in
  {| z1ao := z1ao; zeta := zeta; dm1 := dm1; im0_mo := im0;
     im0 := dot3 c (add im0 (mul zeta dm1)) (T c) |}.

(** ** Lines 111-123: the four-channel derivative batch

    [td_grad.get_jk] serves one density at a time with its three Cartesian
    components, so the batch already has the layout that
    [reshape(-1,3,nao,nao)] gives: channel, component, row, column. *)

Definition t3_2j_minus_k (vj vk : tensor3) : tensor3 :=
  t3_zip (fun j k => sub (muls j two) k) vj vk.
Definition t3_neg (vk : tensor3) : tensor3 := map neg vk.

(** [vj * 2 - vk] on [(n, 3, nao, nao)] arrays. *)
Definition t4_2j_minus_k (vj vk : list tensor3) : list tensor3 :=
  map (fun ch => t3_2j_minus_k (nth ch vj []) (nth ch vk [])) (seq 0 (length vj)).

Definition vhf1_build (gjk : mat -> tensor3 * tensor3) (singlet : bool)
           (oo0 dmz1doo : mat) (d : Densities) : list tensor3 :=
  let '(vj, vk) :=
    jk_batch gjk [oo0; add dmz1doo (T dmz1doo);
                  add (dmzvop d) (T (dmzvop d)); sub (dmzvom d) (T (dmzvom d))] in
  if singlet then t4_2j_minus_k vj vk
  else t4_2j_minus_k (firstn 2 vj) (firstn 2 vk) ++ map t3_neg (skipn 2 vk).

(** ** Lines 130-148: the contraction for one atom *)

(** [de[k] = v] on a row of [numpy.zeros((len(atmlst),3))]. *)
Definition vset (row v : vec) : vec := tab1 (length row) (fun i => at1 v i).

Definition atom_grad (td_grad : Gradients) (vhf1 : list tensor3)
           (oo0 dmz1doo : mat) (d : Densities) (l : Lagrangian) (ia : nat) : pyres vec :=
  match nth_error (offset_nr_by_atom (mol td_grad)) ia with
  | None => Raise IndexError
  | Some (_, _, p0, p1) =>
    let s1 := get_ovlp (ext td_grad) in
    let h1ao := hcore_generator (ext td_grad) ia in
    let h1ao := t3_iadd_rows h1ao p0 p1 (t3_rows p0 p1 (nth 0 vhf1 [])) in
    let h1ao := t3_iadd_cols h1ao p0 p1 (t3_transpose021 (t3_rows p0 p1 (nth 0 vhf1 []))) in
    let dek := vset [0; 0; 0] (vmuls (einsum_xpq_pq_x h1ao oo0) two) in
    let dek := vadd dek (einsum_xpq_pq_x h1ao dmz1doo) in
    let dek := vsub dek (einsum_xpq_pq_x (t3_rows p0 p1 s1) (rows p0 p1 (im0 l))) in
    let dek := vsub dek (einsum_xqp_pq_x (t3_rows p0 p1 s1) (cols p0 p1 (im0 l))) in
    let dek := vadd dek (einsum_xpq_pq_x (t3_rows p0 p1 (nth 1 vhf1 [])) (rows p0 p1 oo0)) in
    let dek := vadd dek (vmuls (einsum_xpq_pq_x (t3_rows p0 p1 (nth 2 vhf1 []))
                                                 (rows p0 p1 (dmzvop d))) two) in
    let dek := vadd dek (vmuls (einsum_xpq_pq_x (t3_rows p0 p1 (nth 3 vhf1 []))
                                                 (rows p0 p1 (dmzvom d))) two) in
    let dek := vadd dek (vmuls (einsum_xqp_pq_x (t3_rows p0 p1 (nth 2 vhf1 []))
                                                 (cols p0 p1 (dmzvop d))) two) in
    let dek := vsub dek (vmuls (einsum_xqp_pq_x (t3_rows p0 p1 (nth 3 vhf1 []))
                                                 (cols p0 p1 (dmzvom d))) two) in
    Ok dek
  end.

(** ** The module-level [kernel]

    [kernel_with] is [kernel] with the three places that call [mf.get_jk]
    given separately: [jk_veff] serves the batched call of line 64 (three
    densities in, three J and three K matrices out), [jk_fvind] the calls
    made from [fvind] (line 80) and [jk_z1] line 89.  [kernel] passes
    [mf.get_jk] for all three.  The arguments [max_memory] and [verbose]
    are not read by any arithmetic and are left out. *)

Record Trace : Type := {
  nocc_ : nat; nvir_ : nat;
  dens : Densities;
  veffs : Veff;
  z1 : mat;
  lagr : Lagrangian;
  dmz1doo : mat;
  oo0 : mat;
  vhf1 : list tensor3
}.

Definition trace_with (jk_veff : list mat -> list mat * list mat)
           (jk_fvind jk_z1 : mat -> mat * mat)
           (td_grad : Gradients) (x_y : mat * mat) (singlet : bool) : Trace :=
  let mf := td_scf (_td td_grad) in
  let c := mo_coeff mf in
  let nmo := ncols c in
  let nocc := count_nocc (mo_occ mf) in
  let nvir := (nmo - nocc)%nat in
  let orbo := cols_to nocc c in
  let d := densities c nocc nvir x_y in
  let v := veff_build jk_veff c nocc singlet d in
  let z1 := zvector td_grad jk_fvind nocc nvir (wvo v) in
  let l := lagrangian jk_z1 c (mo_energy mf) nocc nmo d v z1 in
  let dmz1doo := add (z1ao l) (dmzoo d) in
  let oo0 := dot orbo (T orbo) in
  {| nocc_ := nocc; nvir_ := nvir; dens := d; veffs := v; z1 := z1; lagr := l;
     dmz1doo := dmz1doo; oo0 := oo0;
     vhf1 := vhf1_build (grad_get_jk (ext td_grad)) singlet oo0 dmz1doo d |}.

Definition kernel_with (jk_veff : list mat -> list mat * list mat)
           (jk_fvind jk_z1 : mat -> mat * mat)
           (td_grad : Gradients) (x_y : mat * mat) (singlet : bool)
           (atmlst : option (list nat)) : list event * pyres mat :=
  let t := trace_with jk_veff jk_fvind jk_z1 td_grad x_y singlet in
  let atmlst := match atmlst with
                | Some l => l
                | None => seq 0 (natm (mol td_grad))
                end in
  let timers := [Timer "Z-vector using CPHF solver"; Timer "2e AO integral derivatives"] in
  match mapM (atom_grad td_grad (vhf1 t) (oo0 t) (dmz1doo t) (dens t) (lagr t)) atmlst with
  | Raise e => (timers, Raise e)
  | Ok de => (timers ++ [Timer "TDHF nuclear gradients"], Ok de)
  end.

Definition trace (td_grad : Gradients) : mat * mat -> bool -> Trace :=
  let jk := get_jk (td_scf (_td td_grad)) in
  trace_with (jk_batch jk) jk jk td_grad.

Definition kernel (td_grad : Gradients) :
  mat * mat -> bool -> option (list nat) -> list event * pyres mat :=
  let jk := get_jk (td_scf (_td td_grad)) in
  kernel_with (jk_batch jk) jk jk td_grad.

(** ** [class Gradients] *)

Definition grad_elec (self : Gradients) (xy : mat * mat) (singlet : bool)
           (atmlst : option (list nat)) : list event * pyres mat :=
  kernel self xy singlet atmlst.

Definition report (self : Gradients) (atmlst : list nat) (de : mat) : list event :=
  [Note "--------------";
   Note "           x                y                z"]
  ++ map (fun '(k, ia) =>
            NoteRow ia (atom_symbol (mol self) ia) (get de k 0) (get de k 1) (get de k 2))
         (combine (seq 0 (length atmlst)) atmlst)
  ++ [Note "--------------"; Timer "TD gradients"].

Definition state0_warning : string :=
  "state=0 found in the input. Gradients of ground state is computed.".

(** [Gradients.kernel(self, xy=None, state=1, singlet=None, atmlst=None)]:
    the returned value (or the exception) and the object after the call. *)
Definition Gradients_kernel (self : Gradients) (xy : option (mat * mat)) (state : Z)
           (singlet : option bool) (atmlst : option (list nat))
  : pyres mat * Gradients :=
  if (state =? 0)%Z then
    let self := log self [Warn state0_warning] in
    (nuc_grad_method_kernel (_scf self) atmlst, self)
  else
    match (match xy with
           | None => index (Tdrhf.xy (_td self)) (state - 1)
           | Some v => Ok v
           end) with
    | Raise e => (Raise e, self)
    | Ok xy =>
      let singlet := match singlet with None => td_singlet (_td self) | Some s => s end in
      let atmlst := match atmlst with None => seq 0 (natm (mol self)) | Some l => l end in
      let self := log self (check_sanity (ext self)) in
      let '(evs, r) := grad_elec self xy singlet (Some atmlst) in
      let self := log self evs in
      match r with
      | Raise e => (Raise e, self)
      | Ok de =>
        let de := add de (grad_nuc (ext self) atmlst) in
        let self := set_de self de in
        let self := log self (report self atmlst de) in
        (Ok de, self)
      end
    end.

End Tdrhf.
Import Tdrhf.

(* ================================================================== *)
(** * A small closed-shell system on which the functions are evaluated *)
(* ================================================================== *)

Module Demo.

Local Open Scope Qc_scope.

Definition q (n : Z) (d : positive) : Qc := Q2Qc (n # d).

(** Three atomic orbitals on two atoms (orbitals 0 and 1 on atom 0,
    orbital 2 on atom 1), one doubly occupied orbital, two virtuals. *)
Definition demo_mol : Mole :=
  {| natm := 2;
     offset_nr_by_atom := [(0, 2, 0, 2); (2, 3, 2, 3)]%nat;
     atom_symbol := fun ia => if (ia =? 0)%nat then "F"%string else "H"%string |}.

(** Two-electron integrals in the zero-differential-overlap form
    [(pq|rs) = delta_pq delta_rs u[p][r]]:
    [J[p][p] = sum_r u[p][r] D[r][r]] and [K[p][q] = u[p][q] D[p][q]]. *)
Definition zdo_jk (u : mat) (dm : mat) : mat * mat :=
  (tab (nrows dm) (ncols dm) (fun p r =>
     if (p =? r)%nat then sum_n (nrows dm) (fun s => get u p s * get dm s s) else 0),
   tab (nrows dm) (ncols dm) (fun p r => get u p r * get dm p r)).

Definition demo_u : mat :=
  [[q 1 1; q 1 2; q 1 3]; [q 1 2; q 1 1; q 1 2]; [q 1 3; q 1 2; q 1 1]].

Definition demo_scf : SCF :=
  {| mo_coeff := [[q 1 1; q 1 1; q 0 1];
                  [q 1 1; q (-1) 1; q 1 1];
                  [q 0 1; q 1 1; q 2 1]];
     mo_energy := [q (-1) 1; q 1 2; q 3 2];
     mo_occ := [q 2 1; q 0 1; q 0 1];
     get_jk := zdo_jk demo_u;
     nuc_grad_method_kernel := fun atmlst =>
       Ok (map (fun ia => [q 0 1; q 0 1; if (ia =? 0)%nat then q (-1) 4 else q 1 4])
               (match atmlst with Some l => l | None => seq 0 2 end)) |}.

Definition demo_x : mat := [[q 1 2; q 1 3]].
Definition demo_y : mat := [[q 1 10; q 0 1]].

Definition demo_td (singlet : bool) : TD :=
  {| td_scf := demo_scf;
     xy := [(demo_x, demo_y);
            ([[q 1 5; q (-1) 2]], [[q 0 1; q 1 7]]);
            ([[q 2 3; q 1 4]], [[q 1 9; q 1 8]])];
     td_singlet := singlet |}.

(** A stand-in for [cphf.solve]: with [e_ai = 1/(e_a - e_i)], the start
    vector [b = -h1*e_ai] corrected once by the response,
    [b - fvind(b)*e_ai]. *)
Definition demo_cphf_solve (fv : vec -> vec) (e occ : vec) (h1 : mat)
           (max_cycle : nat) (tol : Qc) : mat :=
  let nocc := count_nocc occ in
  let e_ai := tab (nrows h1) (ncols h1) (fun a i => 1 / (at1 e (nocc + a) - at1 e i)) in
  let b := neg (mul h1 e_ai) in
  sub b (mul (reshape_vec (nrows h1) (ncols h1) (fv (ravel b))) e_ai).

Definition demo_du (x : nat) : mat :=
  tab 3 3 (fun p r => if (p =? r)%nat then 0 else q (Z.of_nat (1 + x + p)) (Pos.of_nat (2 + r))).

Definition demo_ext : External :=
  {| cphf_solve := demo_cphf_solve;
     hcore_generator := fun ia =>
       map (fun x => tab 3 3 (fun p r => q (Z.of_nat (ia + x + p * r)) (Pos.of_nat (1 + p + r))))
           (seq 0 3);
     get_ovlp :=
       map (fun x => tab 3 3 (fun p r => q (Z.of_nat (x + p) - Z.of_nat r) 5)) (seq 0 3);
     grad_get_jk := fun dm =>
       (map (fun x => fst (zdo_jk (demo_du x) dm)) (seq 0 3),
        map (fun x => snd (zdo_jk (demo_du x) dm)) (seq 0 3));
     grad_nuc := fun atmlst =>
       map (fun ia => [q 0 1; q 0 1; if (ia =? 0)%nat then q (-1) 4 else q 1 4]) atmlst;
     check_sanity := [] |}.

Definition demo_grad (singlet : bool) : Gradients :=
  init demo_mol (demo_td singlet) demo_ext.

(** The same system with a single stored excited state. *)
Definition demo_grad_one : Gradients :=
  init demo_mol
       {| td_scf := demo_scf; xy := [(demo_x, demo_y)]; td_singlet := true |}
       demo_ext.

End Demo.
Import Demo.


(* ================================================================== *)
(** * Variants and reference formulas used in the statements *)
(* ================================================================== *)

Module Variant.

Local Open Scope Qc_scope.

(** A J/K build whose Coulomb matrix is forced to zero. *)
Definition zero_j (jk : mat -> mat * mat) (dm : mat) : mat * mat :=
  (zeros (nrows dm) (ncols dm), snd (jk dm)).

(** A batched J/K build whose Coulomb matrices of the listed channels are
    forced to zero. *)
Definition zero_vj (chs : list nat) (jk : list mat -> list mat * list mat)
           (dms : list mat) : list mat * list mat :=
  let '(vj, vk) := jk dms in
  (map (fun '(ch, m) =>
          if existsb (Nat.eqb ch) chs then zeros (nrows m) (ncols m) else m)
       (combine (seq 0 (length vj)) vj),
   vk).

(** The canonical representatives of a returned array, for comparing
    computed results. *)
Definition rrepr (r : pyres mat) : pyres (list (list Q)) :=
  match r with
  | Ok m => Ok (mrepr m)
  | Raise e => Raise e
  end.

(** Two driver objects that differ at most in [de] and [stdout]. *)
Definition same_inputs (g g' : Gradients) : Prop :=
  mol g = mol g' /\ _td g = _td g' /\ ext g = ext g'
  /\ cphf_max_cycle g = cphf_max_cycle g' /\ cphf_conv_tol g = cphf_conv_tol g'.

End Variant.
Import Variant.

Module Spec.

Local Open Scope Qc_scope.

(** An array of shape [(r, c)]. *)
Definition shape (r c : nat) (m : mat) : Prop :=
  length m = r /\ Forall (fun row => length row = c) m.

(** The formulas of the Density Assembler, written entry by entry from
    the amplitudes [x], [y] (occ x vir) and the coefficient matrix [c]
    whose first [nocc] columns are the occupied orbitals. *)
Section Formulas.
Variables (c x y : mat) (nocc nvir : nat).

Definition s_xpy (a i : nat) : Qc := get x i a + get y i a.
Definition s_xmy (a i : nat) : Qc := get x i a - get y i a.
Definition s_orbo (p i : nat) : Qc := get c p i.
Definition s_orbv (p a : nat) : Qc := get c p (nocc + a).

Definition s_dvv (a b : nat) : Qc :=
  sum_n nocc (fun i => s_xpy a i * s_xpy b i + s_xmy a i * s_xmy b i).
Definition s_doo (i j : nat) : Qc :=
  - sum_n nvir (fun a => s_xpy a i * s_xpy a j)
  - sum_n nvir (fun a => s_xmy a i * s_xmy a j).

(** [(orbv . m . orbo^T)[p][q]] for a vir x occ array [m]. *)
Definition s_vo (m : nat -> nat -> Qc) (p r : nat) : Qc :=
  sum_n nocc (fun i => sum_n nvir (fun a => s_orbv p a * m a i) * s_orbo r i).
Definition s_dmzvop : nat -> nat -> Qc := s_vo s_xpy.
Definition s_dmzvom : nat -> nat -> Qc := s_vo s_xmy.
Definition s_dmzoo (p r : nat) : Qc :=
  sum_n nocc (fun j => sum_n nocc (fun i => s_orbo p i * s_doo i j) * s_orbo r j)
  + sum_n nvir (fun b => sum_n nvir (fun a => s_orbv p a * s_dvv a b) * s_orbv r b).
End Formulas.

(** The energy weights and the total density of the Lagrangian Builder:
    the mean of the two orbital energies inside the occ-occ and vir-vir
    blocks, [zeta[a,i] = e_i] and [zeta[i,a] = e_a] outside them; and
    [dm1 = doo (+) dvv (+) z1 (+) 2 I_occ], with a zero occ-vir block. *)
Section Weights.
Variables (e : vec) (nocc : nat).

Definition s_zeta (p r : nat) : Qc :=
  if (p <? nocc)%nat
  then (if (r <? nocc)%nat then (at1 e p + at1 e r) / two else at1 e r)
  else (if (r <? nocc)%nat then at1 e r else (at1 e p + at1 e r) / two).

Definition s_dm1 (doo dvv z1 : mat) (p r : nat) : Qc :=
  if (p <? nocc)%nat
  then (if (r <? nocc)%nat
        then get doo p r + (if (p =? r)%nat then two else 0)
        else 0)
  else (if (r <? nocc)%nat
        then get z1 (p - nocc) r
        else get dvv (p - nocc) (r - nocc)).
End Weights.

End Spec.
Import Spec.

(* ================================================================== *)
(** * Notions used for the further properties of the kernel *)
(* ================================================================== *)

Module Props.

Local Open Scope Qc_scope.

(** Entry-wise symmetry and antisymmetry of a two-dimensional array. *)
Definition symmetric (m : mat) : Prop := forall i j, get m i j = get m j i.

(** [ia] has an entry in [mol.offset_nr_by_atom()]. *)
Definition has_offsets (m : Mole) (ia : nat) : bool :=
  (ia <? length (offset_nr_by_atom m))%nat.

(** A [(3, nao, nao)] array. *)
Definition shape3 (nao : nat) (t : tensor3) : Prop :=
  length t = 3%nat /\ Forall (shape nao nao) t.

(** The shapes under which no array operation of [kernel] (lines 48-148)
    raises [ValueError]: [mo_coeff] is [nao x nmo] with [nocc] occupied and
    [nvir] virtual orbitals, [mo_energy] and [mo_occ] have [nmo] entries,
    [x] and [y] are [nocc x nvir], and the collaborators return arrays of
    the shapes the file assumes: [mf.get_jk] an [nao x nao] pair,
    [cphf.solve] an [nvir x nocc] array, [hcore_deriv(ia)], [get_ovlp] and
    each derivative J and K a [(3, nao, nao)] array.  The array operations
    of [Numpy] are total; on these shapes they are the numpy operations,
    and a statement that a call returns, or fails at a given place, is made
    under this condition. *)
Record well_shaped (g : Gradients) (x_y : mat * mat) (nao nvir : nat) : Prop := {
  ws_nao : (0 < nao)%nat;
  ws_nocc : (0 < count_nocc (mo_occ (td_scf (_td g))))%nat;
  ws_nvir : (0 < nvir)%nat;
  ws_mo_coeff :
    shape nao (count_nocc (mo_occ (td_scf (_td g))) + nvir) (mo_coeff (td_scf (_td g)));
  ws_mo_energy :
    length (mo_energy (td_scf (_td g)))
    = (count_nocc (mo_occ (td_scf (_td g))) + nvir)%nat;
  ws_mo_occ :
    length (mo_occ (td_scf (_td g)))
    = (count_nocc (mo_occ (td_scf (_td g))) + nvir)%nat;
  ws_x : shape (count_nocc (mo_occ (td_scf (_td g)))) nvir (fst x_y);
  ws_y : shape (count_nocc (mo_occ (td_scf (_td g)))) nvir (snd x_y);
  ws_get_jk : forall dm,
    shape nao nao dm ->
    shape nao nao (fst (get_jk (td_scf (_td g)) dm))
    /\ shape nao nao (snd (get_jk (td_scf (_td g)) dm));
  ws_cphf_solve : forall fv w,
    shape nvir (count_nocc (mo_occ (td_scf (_td g)))) w ->
    shape nvir (count_nocc (mo_occ (td_scf (_td g))))
          (cphf_solve (ext g) fv (mo_energy (td_scf (_td g))) (mo_occ (td_scf (_td g)))
                      w (cphf_max_cycle g) (cphf_conv_tol g));
  ws_hcore : forall ia, shape3 nao (hcore_generator (ext g) ia);
  ws_ovlp : shape3 nao (get_ovlp (ext g));
  ws_grad_get_jk : forall dm,
    shape nao nao dm ->
    shape3 nao (fst (grad_get_jk (ext g) dm))
    /\ shape3 nao (snd (grad_get_jk (ext g) dm))
}.

(** J/K builds that change sign with the density, as contractions of the
    density with fixed integrals do. *)
Definition odd_jk (jk : mat -> mat * mat) : Prop :=
  forall dm, jk (neg dm) = (neg (fst (jk dm)), neg (snd (jk dm))).
Definition odd_grad_jk (gjk : mat -> tensor3 * tensor3) : Prop :=
  forall dm, gjk (neg dm) = (map neg (fst (gjk dm)), map neg (snd (gjk dm))).

(** The demo system with the occupation numbers [occ]. *)
Definition demo_grad_occ (occ : vec) : Gradients :=
  init demo_mol
       {| td_scf := {| mo_coeff := mo_coeff demo_scf;
                       mo_energy := mo_energy demo_scf;
                       mo_occ := occ;
                       get_jk := get_jk demo_scf;
                       nuc_grad_method_kernel := nuc_grad_method_kernel demo_scf |};
          xy := [(demo_x, demo_y)];
          td_singlet := true |}
       demo_ext.

(** Entry [(a, i)] of the CPHF right-hand side [wvo] (lines 66-77), from
    the AO matrix [v0] (veff0doo), the MO matrices [vp] and [vm] (veff0mop,
    veff0mom) and the amplitudes [p] and [m] (xpy, xmy). *)
Definition s_wvo (c v0 vp vm p m : mat) (nao nocc nvir a i : nat) : Qc :=
  sum_n nao (fun r => sum_n nao (fun s => get c s (nocc + a) * get v0 s r) * get c r i) * two
  - sum_n nocc (fun j => get vp i j * get p a j) * two
  + sum_n nvir (fun b => get vp (nocc + b) (nocc + a) * get p b i) * two
  - sum_n nocc (fun j => get vm i j * get m a j) * two
  + sum_n nvir (fun b => get vm (nocc + b) (nocc + a) * get m b i) * two.

(** Entry [(r, s)] of [im0] after lines 92-99, from the AO matrix [w]
    (veff0doo + veff) and the same MO matrices and amplitudes. *)
Definition s_im0 (c w vp vm p m : mat) (nao nocc nvir r s : nat) : Qc :=
  if (r <? nocc)%nat then
    if (s <? nocc)%nat then
      sum_n nao (fun u => sum_n nao (fun t => get c t r * get w t u) * get c u s)
      + sum_n nvir (fun a => get vp (nocc + a) r * get p a s)
      + sum_n nvir (fun a => get vm (nocc + a) r * get m a s)
    else 0
  else
    if (s <? nocc)%nat then
      sum_n nocc (fun i => get vp s i * get p (r - nocc) i) * two
      + sum_n nocc (fun i => get vm s i * get m (r - nocc) i) * two
    else
      sum_n nocc (fun i => get vp s i * get p (r - nocc) i)
      + sum_n nocc (fun i => get vm s i * get m (r - nocc) i).

(** The demo system with a third centre that carries no basis function. *)
Definition demo_grad_ghost : Gradients :=
  init {| natm := 3;
          offset_nr_by_atom := [(0, 2, 0, 2); (2, 3, 2, 3); (3, 3, 3, 3)]%nat;
          atom_symbol := fun ia =>
            if (ia =? 0)%nat then "F"%string
            else if (ia =? 1)%nat then "H"%string else "X"%string |}
       (demo_td true) demo_ext.

End Props.
Import Props.

(* ================================================================== *)
(** * Facts about the array operations *)
(* ================================================================== *)

Section ArrayFacts.

Local Open Scope Qc_scope.

Lemma hd_nth0 (A : Type) (d : A) (l : list A) : hd d l = nth 0 l d.
Proof. now destruct l. Qed.

Lemma length_tab1 n f : length (tab1 n f) = n.
Proof. unfold tab1. now rewrite length_map, length_seq. Qed.

Lemma at1_tab1 n f i : (i < n)%nat -> at1 (tab1 n f) i = f i.
Proof.
  intros Hi. unfold at1, tab1.
  rewrite (nth_indep _ 0 (f 0%nat)) by now rewrite length_map, length_seq.
  rewrite (map_nth f (seq 0 n) 0%nat i), seq_nth; auto.
Qed.

Lemma nrows_tab r c f : nrows (tab r c f) = r.
Proof. unfold nrows, tab. now rewrite length_map, length_seq. Qed.

Lemma row_tab r c f i : (i < r)%nat -> nth i (tab r c f) [] = tab1 c (f i).
Proof.
  intros Hi. unfold tab. set (F := fun i => tab1 c (f i)).
  rewrite (nth_indep _ [] (F 0%nat)) by now rewrite length_map, length_seq.
  etransitivity; [apply (map_nth F)|]. now rewrite seq_nth.
Qed.

Lemma ncols_tab r c f : (0 < r)%nat -> ncols (tab r c f) = c.
Proof.
  intros Hr. unfold ncols. rewrite hd_nth0.
  rewrite row_tab by assumption. apply length_tab1.
Qed.

Lemma get_tab r c f i j : (i < r)%nat -> (j < c)%nat -> get (tab r c f) i j = f i j.
Proof.
  intros Hi Hj. unfold get. rewrite row_tab by assumption.
  now apply at1_tab1.
Qed.

Lemma shape_tab r c f : shape r c (tab r c f).
Proof.
  split; [apply nrows_tab|].
  unfold tab. apply Forall_forall. intros row Hin.
  apply in_map_iff in Hin. destruct Hin as [i [<- _]]. apply length_tab1.
Qed.

Lemma tab1_ext n f g : (forall i, (i < n)%nat -> f i = g i) -> tab1 n f = tab1 n g.
Proof.
  intros H. unfold tab1. apply map_ext_in. intros i Hi.
  apply in_seq in Hi. apply H. lia.
Qed.

Lemma tab_ext r c f g :
  (forall i j, (i < r)%nat -> (j < c)%nat -> f i j = g i j) -> tab r c f = tab r c g.
Proof.
  intros H. unfold tab. apply map_ext_in. intros i Hi.
  apply in_seq in Hi. apply tab1_ext. intros j Hj. apply H; lia.
Qed.

Lemma sum_n_ext n f g : (forall i, (i < n)%nat -> f i = g i) -> sum_n n f = sum_n n g.
Proof.
  intros H. unfold sum_n. f_equal. apply map_ext_in. intros i Hi.
  apply in_seq in Hi. apply H. lia.
Qed.

Lemma sum_n_S n f : sum_n (S n) f = sum_n n f + f n.
Proof.
  unfold sum_n. rewrite seq_S, map_app. simpl.
  generalize (map f (seq 0 n)). intros l.
  induction l as [|a l IH]; simpl; [ring | rewrite IH; ring].
Qed.

Lemma sum_n_plus n f g :
  sum_n n (fun i => f i + g i) = sum_n n f + sum_n n g.
Proof.
  induction n as [|n IH]; [unfold sum_n; simpl; ring|].
  rewrite !sum_n_S, IH. ring.
Qed.

Lemma sum_n_opp n f : sum_n n (fun i => - f i) = - sum_n n f.
Proof.
  induction n as [|n IH]; [unfold sum_n; simpl; ring|].
  rewrite !sum_n_S, IH. ring.
Qed.

(** Shapes, and the entries of a well-shaped array. *)

Lemma shape_nrows r c m : shape r c m -> nrows m = r.
Proof. now intros [H _]. Qed.

Lemma shape_row r c m i : shape r c m -> (i < r)%nat -> length (nth i m []) = c.
Proof.
  intros [Hl Hf] Hi. rewrite Forall_forall in Hf. apply Hf.
  apply nth_In. lia.
Qed.

Lemma shape_ncols r c m : shape r c m -> (0 < r)%nat -> ncols m = c.
Proof.
  intros H Hr. unfold ncols. rewrite hd_nth0.
  now apply shape_row with (r := r).
Qed.

Lemma tab_get r c m : shape r c m -> tab r c (get m) = m.
Proof.
  intros H. apply nth_ext with (d := []) (d' := []).
  - destruct H as [Hl _]. rewrite Hl. apply nrows_tab.
  - intros i Hi. change (i < nrows (tab r c (get m)))%nat in Hi.
    rewrite nrows_tab in Hi. rewrite row_tab by assumption.
    apply nth_ext with (d := 0) (d' := 0).
    + rewrite length_tab1. symmetry. now apply shape_row with (r := r).
    + intros j Hj. rewrite length_tab1 in Hj.
      change (at1 (tab1 c (get m i)) j = get m i j). now rewrite at1_tab1.
Qed.

Lemma nth_map_nil (A B : Type) (g : list A -> list B) (m : list (list A)) i :
  g [] = [] -> nth i (map g m) [] = g (nth i m []).
Proof.
  intros E. transitivity (nth i (map g m) (g [])); [now rewrite E | apply map_nth].
Qed.

Lemma nth_map_0 (f : Qc -> Qc) (row : vec) j :
  f 0 = 0 -> nth j (map f row) 0 = f (nth j row 0).
Proof.
  intros E. transitivity (nth j (map f row) (f 0)); [now rewrite E | apply map_nth].
Qed.

Lemma get_map (f : Qc -> Qc) m i j :
  f 0 = 0 -> get (map (map f) m) i j = f (get m i j).
Proof.
  intros E. unfold get. rewrite nth_map_nil by reflexivity. now apply nth_map_0.
Qed.

Lemma get_neg m i j : get (neg m) i j = - get m i j.
Proof. unfold neg. apply get_map. ring. Qed.

Lemma get_muls m k i j : get (muls m k) i j = get m i j * k.
Proof. unfold muls. apply (get_map (fun v => v * k)). ring. Qed.

Lemma get_cols_from n m i j : get (cols_from n m) i j = get m i (n + j).
Proof.
  unfold get, cols_from. rewrite nth_map_nil by apply skipn_nil. apply nth_skipn.
Qed.

Lemma get_cols_to n m i j : (j < n)%nat -> get (cols_to n m) i j = get m i j.
Proof.
  intros Hj. unfold get, cols_to. rewrite nth_map_nil by apply firstn_nil.
  rewrite nth_firstn. destruct (Nat.ltb_spec j n); [reflexivity | lia].
Qed.

Lemma get_rows_from n m i j : get (rows_from n m) i j = get m (n + i) j.
Proof. unfold get, rows_from. now rewrite nth_skipn. Qed.

Lemma get_rows_to n m i j : (i < n)%nat -> get (rows_to n m) i j = get m i j.
Proof.
  intros Hi. unfold get, rows_to. rewrite nth_firstn.
  destruct (Nat.ltb_spec i n); [reflexivity | lia].
Qed.

Lemma nrows_cols_from n m : nrows (cols_from n m) = nrows m.
Proof. apply length_map. Qed.

Lemma nrows_cols_to n m : nrows (cols_to n m) = nrows m.
Proof. apply length_map. Qed.

Lemma shape_cols_from r c n m : shape r c m -> shape r (c - n) (cols_from n m).
Proof.
  intros [Hl Hf]. split; [now rewrite <- Hl; apply length_map|].
  unfold cols_from. apply Forall_map. eapply Forall_impl; [|exact Hf].
  intros row Hr. cbv beta in *. rewrite length_skipn. lia.
Qed.

Lemma shape_cols_to r c n m : shape r c m -> (n <= c)%nat -> shape r n (cols_to n m).
Proof.
  intros [Hl Hf] Hn. split; [now rewrite <- Hl; apply length_map|].
  unfold cols_to. apply Forall_map. eapply Forall_impl; [|exact Hf].
  intros row Hr. cbv beta in *. rewrite length_firstn. lia.
Qed.

(** Row-major flattening. *)
Lemma nth_concat r c (m : mat) i j :
  shape r c m -> (i < r)%nat -> (j < c)%nat ->
  nth (i * c + j) (concat m) 0 = get m i j.
Proof.
  revert r i. induction m as [|row m IH]; intros r i [Hl Hf] Hi Hj.
  - simpl in Hl. lia.
  - inversion Hf as [|? ? Hrow Hf']; subst. simpl concat.
    destruct i as [|i].
    + simpl. rewrite app_nth1 by lia. reflexivity.
    + rewrite app_nth2 by (simpl; nia).
      replace (S i * length row + j - length row)%nat with (i * length row + j)%nat
        by (simpl; lia).
      simpl in Hi. rewrite (IH (length m) i); [reflexivity | | lia | assumption].
      split; [reflexivity | assumption].
Qed.

Lemma get_reshape r c m i j :
  shape r c m -> (i < r)%nat -> (j < c)%nat -> get (reshape r c m) i j = get m i j.
Proof.
  intros H Hi Hj. unfold reshape, reshape_vec, ravel.
  rewrite get_tab by assumption. unfold at1. now apply nth_concat with (r := r).
Qed.

Lemma reshape_id r c m : shape r c m -> reshape r c m = m.
Proof.
  intros H. rewrite <- (tab_get H) at 2.
  unfold reshape, reshape_vec, ravel. apply tab_ext. intros i j Hi Hj.
  unfold at1. now apply nth_concat with (r := r).
Qed.

(** Comparing computed arrays through their canonical representatives. *)
Lemma vrepr_inj (u v : vec) : vrepr u = vrepr v -> u = v.
Proof.
  revert v. induction u as [|a u IH]; intros [|b v] H; simpl in H;
    try discriminate; [reflexivity|].
  injection H as Hab Huv. f_equal; [|now apply IH].
  apply Qc_is_canon. rewrite Hab. reflexivity.
Qed.

Lemma mrepr_inj (a b : mat) : mrepr a = mrepr b -> a = b.
Proof.
  revert b. induction a as [|u a IH]; intros [|v b] H; simpl in H;
    try discriminate; [reflexivity|].
  injection H as Huv Hab. f_equal; [now apply vrepr_inj | now apply IH].
Qed.

End ArrayFacts.

(** On well-shaped operands every operation is the table of its entries. *)
Section ShapedOperations.

Local Open Scope Qc_scope.

Lemma zip_shape f r c a b :
  shape r c a -> (0 < r)%nat ->
  zip f a b = tab r c (fun i j => f (get a i j) (get b i j)).
Proof.
  intros H Hr. unfold zip. now rewrite (shape_nrows H), (shape_ncols H Hr).
Qed.

Lemma T_shape r c a :
  shape r c a -> (0 < r)%nat -> T a = tab c r (fun i j => get a j i).
Proof.
  intros H Hr. unfold T. now rewrite (shape_nrows H), (shape_ncols H Hr).
Qed.

Lemma dot_shape r n c a b :
  shape r n a -> shape n c b -> (0 < r)%nat -> (0 < n)%nat ->
  dot a b = tab r c (fun i j => sum_n n (fun k => get a i k * get b k j)).
Proof.
  intros Ha Hb Hr Hn. unfold dot.
  now rewrite (shape_nrows Ha), (shape_ncols Ha Hr), (shape_ncols Hb Hn).
Qed.

Lemma einsum_ai_bi_ab_shape r r' n a b :
  shape r n a -> shape r' n b -> (0 < r)%nat ->
  einsum_ai_bi_ab a b = tab r r' (fun p q => sum_n n (fun i => get a p i * get b q i)).
Proof.
  intros Ha Hb Hr. unfold einsum_ai_bi_ab.
  now rewrite (shape_nrows Ha), (shape_nrows Hb), (shape_ncols Ha Hr).
Qed.

Lemma einsum_ai_aj_ij_shape n c c' a b :
  shape n c a -> shape n c' b -> (0 < n)%nat ->
  einsum_ai_aj_ij a b = tab c c' (fun i j => sum_n n (fun p => get a p i * get b p j)).
Proof.
  intros Ha Hb Hn. unfold einsum_ai_aj_ij.
  now rewrite (shape_nrows Ha), (shape_ncols Ha Hn), (shape_ncols Hb Hn).
Qed.

Lemma shape_map (f : Qc -> Qc) r c m : shape r c m -> shape r c (map (map f) m).
Proof.
  intros [Hl Hf]. split; [now rewrite length_map|].
  apply Forall_map. eapply Forall_impl; [|exact Hf].
  intros row Hr. cbv beta in *. now rewrite length_map.
Qed.

Lemma shape_neg r c m : shape r c m -> shape r c (neg m).
Proof. apply shape_map. Qed.

Lemma shape_muls r c m k : shape r c m -> shape r c (muls m k).
Proof. apply (shape_map (fun v => v * k)). Qed.

End ShapedOperations.

(* ================================================================== *)
(** * The Density Assembler (lines 51-62) *)
(* ================================================================== *)

Section DensityAssembler.

Local Open Scope Qc_scope.

Variables (c x y : mat) (nao nocc nvir : nat).
Hypothesis Hc : shape nao (nocc + nvir) c.
Hypothesis Hx : shape nocc nvir x.
Hypothesis Hy : shape nocc nvir y.
Hypothesis Hnao : (0 < nao)%nat.
Hypothesis Hnocc : (0 < nocc)%nat.
Hypothesis Hnvir : (0 < nvir)%nat.

Lemma orbo_tab : cols_to nocc c = tab nao nocc (s_orbo c).
Proof.
  rewrite <- (tab_get (shape_cols_to Hc (Nat.le_add_r nocc nvir))).
  apply tab_ext. intros p i Hp Hi. now apply get_cols_to.
Qed.

Lemma orbv_tab : cols_from nocc c = tab nao nvir (s_orbv c nocc).
Proof.
  pose proof (shape_cols_from nocc Hc) as H.
  replace (nocc + nvir - nocc)%nat with nvir in H by lia.
  rewrite <- (tab_get H). apply tab_ext. intros p a Hp Ha. apply get_cols_from.
Qed.

Lemma xpy_tab : xpy (densities c nocc nvir (x, y)) = tab nvir nocc (s_xpy x y).
Proof.
  unfold densities. cbn [xpy]. unfold add.
  rewrite (zip_shape _ _ Hx Hnocc), (reshape_id (shape_tab _ _ _)).
  rewrite (T_shape (shape_tab _ _ _) Hnocc).
  apply tab_ext. intros a i Ha Hi. now rewrite get_tab.
Qed.

Lemma xmy_tab : xmy (densities c nocc nvir (x, y)) = tab nvir nocc (s_xmy x y).
Proof.
  unfold densities. cbn [xmy]. unfold sub.
  rewrite (zip_shape _ _ Hx Hnocc), (reshape_id (shape_tab _ _ _)).
  rewrite (T_shape (shape_tab _ _ _) Hnocc).
  apply tab_ext. intros a i Ha Hi. now rewrite get_tab.
Qed.

Lemma dvv_tab : dvv (densities c nocc nvir (x, y)) = tab nvir nvir (s_dvv x y nocc).
Proof.
  pose proof xpy_tab as Hp. pose proof xmy_tab as Hm.
  unfold densities in *. cbn [xpy xmy dvv] in *. rewrite Hp, Hm.
  rewrite !(einsum_ai_bi_ab_shape (shape_tab _ _ _) (shape_tab _ _ _) Hnvir).
  unfold add. rewrite (zip_shape _ _ (shape_tab _ _ _) Hnvir).
  apply tab_ext. intros a b Ha Hb. rewrite !get_tab by assumption.
  unfold s_dvv. rewrite sum_n_plus. f_equal; apply sum_n_ext; intros i Hi;
    now rewrite !get_tab.
Qed.

Lemma doo_tab : doo (densities c nocc nvir (x, y)) = tab nocc nocc (s_doo x y nvir).
Proof.
  pose proof xpy_tab as Hp. pose proof xmy_tab as Hm.
  unfold densities in *. cbn [xpy xmy doo] in *. rewrite Hp, Hm.
  rewrite !(einsum_ai_aj_ij_shape (shape_tab _ _ _) (shape_tab _ _ _) Hnvir).
  unfold sub. rewrite (zip_shape _ _ (shape_neg (shape_tab _ _ _)) Hnocc).
  apply tab_ext. intros i j Hi Hj. rewrite get_neg, !get_tab by assumption.
  unfold s_doo. f_equal; [f_equal|]; apply sum_n_ext; intros a Ha;
    now rewrite !get_tab.
Qed.

(** [orbv . m . orbo^T] for a vir x occ table [m]. *)
Lemma vo_tab (m : nat -> nat -> Qc) :
  dot3 (cols_from nocc c) (tab nvir nocc m) (T (cols_to nocc c))
  = tab nao nao (s_vo c nocc nvir m).
Proof.
  unfold dot3. rewrite orbo_tab, orbv_tab.
  rewrite (T_shape (shape_tab _ _ _) Hnao).
  rewrite (dot_shape (shape_tab _ _ _) (shape_tab _ _ _) Hnao Hnvir).
  rewrite (dot_shape (shape_tab _ _ _) (shape_tab _ _ _) Hnao Hnocc).
  apply tab_ext. intros p r Hp Hr. unfold s_vo.
  apply sum_n_ext. intros i Hi. rewrite !get_tab by assumption.
  f_equal. apply sum_n_ext. intros a Ha. now rewrite !get_tab.
Qed.

Lemma dmzvop_tab : dmzvop (densities c nocc nvir (x, y)) = tab nao nao (s_dmzvop c x y nocc nvir).
Proof.
  pose proof xpy_tab as Hp. unfold densities in *. cbn [xpy dmzvop] in *.
  rewrite Hp. apply vo_tab.
Qed.

Lemma dmzvom_tab : dmzvom (densities c nocc nvir (x, y)) = tab nao nao (s_dmzvom c x y nocc nvir).
Proof.
  pose proof xmy_tab as Hm. unfold densities in *. cbn [xmy dmzvom] in *.
  rewrite Hm. apply vo_tab.
Qed.

Lemma dmzoo_tab : dmzoo (densities c nocc nvir (x, y)) = tab nao nao (s_dmzoo c x y nocc nvir).
Proof.
  pose proof dvv_tab as Hv. pose proof doo_tab as Ho.
  unfold densities in *. cbn [dvv doo dmzoo] in *. rewrite Hv, Ho.
  unfold dot3. rewrite orbo_tab, orbv_tab.
  rewrite !(T_shape (shape_tab _ _ _) Hnao).
  rewrite (dot_shape (shape_tab _ _ _) (shape_tab nocc nocc _) Hnao Hnocc).
  rewrite (dot_shape (shape_tab _ _ _) (shape_tab nvir nvir _) Hnao Hnvir).
  rewrite (dot_shape (shape_tab _ _ _) (shape_tab nocc nao _) Hnao Hnocc).
  rewrite (dot_shape (shape_tab _ _ _) (shape_tab nvir nao _) Hnao Hnvir).
  unfold add. rewrite (zip_shape _ _ (shape_tab _ _ _) Hnao).
  apply tab_ext. intros p r Hp Hr. rewrite !get_tab by assumption.
  unfold s_dmzoo. f_equal; apply sum_n_ext; intros j Hj;
    rewrite !get_tab by assumption; f_equal; apply sum_n_ext; intros i Hi;
    now rewrite !get_tab.
Qed.

End DensityAssembler.

(** C2.  For amplitudes [x], [y] of shape occ x vir and a coefficient matrix
    of shape nao x (nocc+nvir), the arrays computed by lines 51-62 are the
    tables of the spec's formulas: [xpy = (X+Y)^T], [xmy = (X-Y)^T],
    [dvv[a,b] = sum_i xpy[a,i] xpy[b,i] + xmy[a,i] xmy[b,i]],
    [doo[i,j] = - sum_a xpy[a,i] xpy[a,j] - sum_a xmy[a,i] xmy[a,j]],
    [dmzvop = orbv.xpy.orbo^T], [dmzvom = orbv.xmy.orbo^T] and
    [dmzoo = orbo.doo.orbo^T + orbv.dvv.orbv^T]; and the singlet flag does
    not change them. *)
Theorem density_assembler_formulas :
  forall (g : Gradients) (x y : mat) (singlet : bool) (nao nocc nvir : nat),
    let mf := td_scf (_td g) in
    count_nocc (mo_occ mf) = nocc ->
    shape nao (nocc + nvir) (mo_coeff mf) ->
    shape nocc nvir x -> shape nocc nvir y ->
    (0 < nao)%nat -> (0 < nocc)%nat -> (0 < nvir)%nat ->
    let d := dens (trace g (x, y) singlet) in
    xpy d = tab nvir nocc (s_xpy x y)
    /\ xmy d = tab nvir nocc (s_xmy x y)
    /\ dvv d = tab nvir nvir (s_dvv x y nocc)
    /\ doo d = tab nocc nocc (s_doo x y nvir)
    /\ dmzvop d = tab nao nao (s_dmzvop (mo_coeff mf) x y nocc nvir)
    /\ dmzvom d = tab nao nao (s_dmzvom (mo_coeff mf) x y nocc nvir)
    /\ dmzoo d = tab nao nao (s_dmzoo (mo_coeff mf) x y nocc nvir)
    /\ dens (trace g (x, y) (negb singlet)) = d.
Proof.
  intros g x y singlet nao nocc nvir mf Hocc Hc Hx Hy Hnao Hnocc Hnvir d.
  assert (Hd : d = densities (mo_coeff mf) nocc nvir (x, y)).
  { unfold d, trace, trace_with. cbn [dens]. fold mf. rewrite Hocc.
    rewrite (shape_ncols Hc Hnao). now replace (nocc + nvir - nocc)%nat with nvir by lia. }
  rewrite Hd.
  repeat split.
  - now apply xpy_tab.
  - now apply xmy_tab.
  - now apply dvv_tab.
  - now apply doo_tab.
  - now apply dmzvop_tab with (nao := nao).
  - now apply dmzvom_tab with (nao := nao).
  - now apply dmzoo_tab with (nao := nao).
  - rewrite <- Hd. unfold d, trace, trace_with. cbn [dens]. reflexivity.
Qed.

Lemma density_assembler_formulas_witness :
  let d := dens (trace (demo_grad true) (demo_x, demo_y) true) in
  xpy d = tab 2 1 (s_xpy demo_x demo_y)
  /\ xmy d = tab 2 1 (s_xmy demo_x demo_y)
  /\ dvv d = tab 2 2 (s_dvv demo_x demo_y 1)
  /\ doo d = tab 1 1 (s_doo demo_x demo_y 2)
  /\ dmzvop d = tab 3 3 (s_dmzvop (mo_coeff demo_scf) demo_x demo_y 1 2)
  /\ dmzvom d = tab 3 3 (s_dmzvom (mo_coeff demo_scf) demo_x demo_y 1 2)
  /\ dmzoo d = tab 3 3 (s_dmzoo (mo_coeff demo_scf) demo_x demo_y 1 2)
  /\ dens (trace (demo_grad true) (demo_x, demo_y) (negb true)) = d.
Proof.
  apply (@density_assembler_formulas (demo_grad true) demo_x demo_y true 3 1 2).
  - reflexivity.
  - split; [reflexivity | repeat constructor].
  - split; [reflexivity | repeat constructor].
  - split; [reflexivity | repeat constructor].
  - lia.
  - lia.
  - lia.
Defined.

(* ================================================================== *)
(** * The energy-weighted Lagrangian (lines 101-109) *)
(* ================================================================== *)

Section BlockAssignments.

Local Open Scope Qc_scope.

Variables (r c : nat) (m : mat).
Hypothesis Hm : shape r c m.
Hypothesis Hr : (0 < r)%nat.

Lemma set_block_shape r0 r1 c0 c1 b :
  set_block m r0 r1 c0 c1 b
  = tab r c (fun i j => if in_range r0 r1 i && in_range c0 c1 j
                        then get b (i - r0) (j - c0) else get m i j).
Proof. unfold set_block. now rewrite (shape_nrows Hm), (shape_ncols Hm Hr). Qed.

Lemma iadd_block_shape r0 r1 c0 c1 b :
  iadd_block m r0 r1 c0 c1 b
  = tab r c (fun i j => if in_range r0 r1 i && in_range c0 c1 j
                        then get m i j + get b (i - r0) (j - c0) else get m i j).
Proof. unfold iadd_block. now rewrite (shape_nrows Hm), (shape_ncols Hm Hr). Qed.

Lemma set_block_bcast_shape r0 r1 c0 c1 v :
  set_block_bcast m r0 r1 c0 c1 v
  = tab r c (fun i j => if in_range r0 r1 i && in_range c0 c1 j
                        then at1 v (j - c0) else get m i j).
Proof. unfold set_block_bcast. now rewrite (shape_nrows Hm), (shape_ncols Hm Hr). Qed.

End BlockAssignments.

Lemma half_is_div_two (v : Qc) : (v * half = v / two)%Qc.
Proof.
  unfold Qcdiv. f_equal.
Qed.

Lemma shape_zeros r c : shape r c (zeros r c).
Proof. apply shape_tab. Qed.

Section EnergyWeights.

Local Open Scope Qc_scope.

Variables (jk : mat -> mat * mat) (c : mat) (e : vec) (nocc nmo : nat).
Variables (d : Densities) (v : Veff) (z : mat).
Hypothesis He : length e = nmo.
Hypothesis Hnmo : (0 < nmo)%nat.

Lemma zeta_tab : zeta (lagrangian jk c e nocc nmo d v z) = tab nmo nmo (s_zeta e nocc).
Proof.
  unfold lagrangian. destruct (jk _) as [vj vk]. cbn [zeta].
  assert (H0 : shape nmo nmo (muls (direct_sum e e) half)).
  { apply shape_muls. unfold direct_sum. rewrite He. apply shape_tab. }
  rewrite (shape_nrows H0).
  rewrite (set_block_bcast_shape H0 Hnmo).
  rewrite (shape_ncols (shape_tab _ _ _) Hnmo).
  rewrite (set_block_bcast_shape (shape_tab _ _ _) Hnmo).
  apply tab_ext. intros p r Hp Hr. rewrite get_tab by assumption.
  rewrite get_muls. unfold direct_sum. rewrite He, get_tab by assumption.
  unfold s_zeta, in_range, at1.
  destruct (Nat.ltb_spec p nocc), (Nat.ltb_spec r nocc);
    repeat match goal with
           | |- context [Nat.leb ?a ?b] => destruct (Nat.leb_spec a b); try lia
           | |- context [Nat.ltb ?a ?b] => destruct (Nat.ltb_spec a b); try lia
           end; cbn [andb];
    try apply half_is_div_two.
  - rewrite nth_skipn. f_equal. lia.
  - rewrite Nat.sub_0_r, nth_firstn.
    destruct (Nat.ltb_spec r nocc); [reflexivity | lia].
Qed.

Lemma dm1_tab :
  dm1 (lagrangian jk c e nocc nmo d v z) = tab nmo nmo (s_dm1 nocc (doo d) (dvv d) z).
Proof.
  unfold lagrangian. destruct (jk _) as [vj vk]. cbn [dm1].
  rewrite (set_block_shape (shape_zeros nmo nmo) Hnmo).
  rewrite (set_block_shape (shape_tab _ _ _) Hnmo).
  rewrite (set_block_shape (shape_tab _ _ _) Hnmo).
  rewrite (iadd_block_shape (shape_tab _ _ _) Hnmo).
  apply tab_ext. intros p r Hp Hr. rewrite !get_tab by assumption.
  unfold zeros. rewrite get_tab by assumption.
  unfold s_dm1, in_range.
  destruct (Nat.ltb_spec p nocc), (Nat.ltb_spec r nocc);
    repeat match goal with
           | |- context [Nat.leb ?a ?b] => destruct (Nat.leb_spec a b); try lia
           | |- context [Nat.ltb ?a ?b] => destruct (Nat.ltb_spec a b); try lia
           end; cbn [andb]; try reflexivity.
  - rewrite !Nat.sub_0_r, get_muls. unfold eye. rewrite get_tab by assumption.
    destruct (p =? r)%nat; ring.
  - now rewrite Nat.sub_0_r.
Qed.

Lemma im0_mo_shape : shape nmo nmo (im0_mo (lagrangian jk c e nocc nmo d v z)).
Proof.
  unfold lagrangian. destruct (jk _) as [vj vk]. cbn [im0_mo].
  rewrite (set_block_shape (shape_zeros nmo nmo) Hnmo).
  repeat (first [ rewrite (iadd_block_shape (shape_tab _ _ _) Hnmo)
                | rewrite (set_block_shape (shape_tab _ _ _) Hnmo) ]).
  apply shape_tab.
Qed.

Lemma im0_ao :
  im0 (lagrangian jk c e nocc nmo d v z)
  = dot3 c
         (tab nmo nmo (fun p r =>
            get (im0_mo (lagrangian jk c e nocc nmo d v z)) p r
            + s_zeta e nocc p r * s_dm1 nocc (doo d) (dvv d) z p r))
         (T c).
Proof.
  pose proof zeta_tab as Hz. pose proof dm1_tab as Hd. pose proof im0_mo_shape as Hi.
  unfold lagrangian in *. destruct (jk _) as [vj vk]. cbn [im0 zeta dm1 im0_mo] in *.
  f_equal. rewrite Hz, Hd. unfold add, mul.
  rewrite (zip_shape _ _ Hi Hnmo), (zip_shape _ _ (shape_tab _ _ _) Hnmo).
  apply tab_ext. intros p r Hp Hr. now rewrite !get_tab.
Qed.

End EnergyWeights.

(** C4.  In every gradient evaluation [zeta] is the table of [s_zeta]:
    [(e_p + e_q)/2] inside the occ-occ and vir-vir blocks, [zeta[a,i] = e_i]
    and [zeta[i,a] = e_a] in the off-diagonal blocks; [dm1] is
    [doo (+) dvv (+) z1 (+) 2 I_occ]; and line 109 returns
    [C . (im0 + zeta*dm1) . C^T], the product [zeta*dm1] being taken entry
    by entry. *)
Theorem energy_weighting_zeta :
  forall (g : Gradients) (x_y : mat * mat) (singlet : bool) (nmo : nat),
    let mf := td_scf (_td g) in
    ncols (mo_coeff mf) = nmo ->
    length (mo_energy mf) = nmo ->
    (0 < nmo)%nat ->
    let t := trace g x_y singlet in
    let nocc := count_nocc (mo_occ mf) in
    zeta (lagr t) = tab nmo nmo (s_zeta (mo_energy mf) nocc)
    /\ dm1 (lagr t) = tab nmo nmo (s_dm1 nocc (doo (dens t)) (dvv (dens t)) (z1 t))
    /\ im0 (lagr t)
       = dot3 (mo_coeff mf)
              (tab nmo nmo (fun p r =>
                 (get (im0_mo (lagr t)) p r
                  + s_zeta (mo_energy mf) nocc p r
                    * s_dm1 nocc (doo (dens t)) (dvv (dens t)) (z1 t) p r)%Qc))
              (T (mo_coeff mf)).
Proof.
  intros g x_y singlet nmo mf Hc He Hnmo t nocc.
  unfold t, trace, trace_with. cbn [lagr dens z1]. fold mf. rewrite Hc. fold nocc.
  repeat split.
  - now apply zeta_tab.
  - now apply dm1_tab.
  - now apply im0_ao.
Qed.

Lemma energy_weighting_zeta_witness :
  let g := demo_grad true in
  let t := trace g (demo_x, demo_y) true in
  zeta (lagr t) = tab 3 3 (s_zeta (mo_energy demo_scf) 1)
  /\ dm1 (lagr t) = tab 3 3 (s_dm1 1 (doo (dens t)) (dvv (dens t)) (z1 t))
  /\ im0 (lagr t)
     = dot3 (mo_coeff demo_scf)
            (tab 3 3 (fun p r =>
               (get (im0_mo (lagr t)) p r
                + s_zeta (mo_energy demo_scf) 1 p r
                  * s_dm1 1 (doo (dens t)) (dvv (dens t)) (z1 t) p r)%Qc))
            (T (mo_coeff demo_scf)).
Proof.
  apply (@energy_weighting_zeta (demo_grad true) (demo_x, demo_y) true 3).
  - reflexivity.
  - reflexivity.
  - lia.
Defined.

(* ================================================================== *)
(** * The four-channel derivative batch (lines 114-123) *)
(* ================================================================== *)

Section DerivativeChannels.

Local Open Scope Qc_scope.

Lemma nth_map_seq (A : Type) (F : nat -> A) (n x : nat) (d : A) :
  (x < n)%nat -> nth x (map F (seq 0 n)) d = F x.
Proof.
  intros Hx. rewrite (nth_indep _ d (F 0%nat)) by now rewrite length_map, length_seq.
  rewrite map_nth, seq_nth; auto.
Qed.

Lemma ncols_map (f : Qc -> Qc) (m : mat) : ncols (map (map f) m) = ncols m.
Proof. destruct m; [reflexivity | apply length_map]. Qed.

Lemma get_2j_minus_k (vj vk : tensor3) x p r :
  (x < length vj)%nat -> (p < nrows (nth x vj []))%nat -> (r < ncols (nth x vj []))%nat ->
  get (nth x (t3_2j_minus_k vj vk) []) p r
  = get (nth x vj []) p r * two - get (nth x vk []) p r.
Proof.
  intros Hx Hp Hr. unfold t3_2j_minus_k, t3_zip.
  rewrite nth_map_seq by assumption. unfold sub, zip.
  unfold muls at 1 2. unfold nrows at 1. rewrite length_map, ncols_map.
  rewrite get_tab by assumption. now rewrite get_muls.
Qed.

Lemma get_t3_neg (vk : tensor3) x p r :
  get (nth x (t3_neg vk) []) p r = - get (nth x vk []) p r.
Proof.
  unfold t3_neg. rewrite nth_map_nil by reflexivity. apply get_neg.
Qed.

End DerivativeChannels.

(** C5.  In the four-channel batch of derivative integrals (densities
    [oo0], [dmz1doo+dmz1doo^T], [dmzvop+dmzvop^T], [dmzvom-dmzvom^T]) every
    entry of [vhf1] is [2J-K] on every channel when singlet; when triplet it
    is [2J-K] on channels 0 and 1 and [-K] on channels 2 and 3. *)
Theorem vhf1_channel_rule :
  forall (g : Gradients) (x_y : mat * mat) (singlet : bool) (ch x p r : nat),
    let t := trace g x_y singlet in
    let dms := [oo0 t;
                add (dmz1doo t) (T (dmz1doo t));
                add (dmzvop (dens t)) (T (dmzvop (dens t)));
                sub (dmzvom (dens t)) (T (dmzvom (dens t)))] in
    let vj := fst (grad_get_jk (ext g) (nth ch dms [])) in
    let vk := snd (grad_get_jk (ext g) (nth ch dms [])) in
    (ch < 4)%nat ->
    (x < length vj)%nat -> (p < nrows (nth x vj []))%nat -> (r < ncols (nth x vj []))%nat ->
    length (vhf1 t) = 4%nat
    /\ get (nth x (nth ch (vhf1 t) []) []) p r
       = if singlet || (ch <? 2)%nat
         then (get (nth x vj []) p r * two - get (nth x vk []) p r)%Qc
         else (- get (nth x vk []) p r)%Qc.
Proof.
  intros g x_y singlet ch x p r t dms vj vk Hch Hx Hp Hr.
  assert (Hv : vhf1 t = vhf1_build (grad_get_jk (ext g)) singlet (oo0 t) (dmz1doo t) (dens t))
    by reflexivity.
  rewrite Hv. unfold vhf1_build, jk_batch. fold dms.
  split; [now destruct singlet|].
  destruct ch as [|[|[|[|ch]]]]; try lia; destruct singlet;
    cbn [orb Nat.ltb Nat.leb]; unfold dms in *;
    cbn [map firstn skipn app nth length seq t4_2j_minus_k] in *;
    first [now apply get_2j_minus_k | apply get_t3_neg].
Qed.

Lemma vhf1_channel_rule_witness :
  let g := demo_grad false in
  let t := trace g (demo_x, demo_y) false in
  let dm := add (dmzvop (dens t)) (T (dmzvop (dens t))) in
  length (vhf1 t) = 4%nat
  /\ get (nth 0 (nth 2 (vhf1 t) []) []) 0 1
     = (- get (nth 0 (snd (grad_get_jk (ext g) dm)) []) 0 1)%Qc.
Proof.
  intros g t dm.
  pose proof (@vhf1_channel_rule g (demo_x, demo_y) false 2 0 0 1) as H.
  cbv zeta in H. cbn [orb Nat.ltb Nat.leb nth] in H.
  apply H; vm_compute; lia.
Defined.

(* ================================================================== *)
(** * Which Coulomb matrices enter the effective-Fock intermediates *)
(* ================================================================== *)

Section CoulombChannels.

Local Open Scope Qc_scope.

(** The trace depends on the batched build of line 64 only through
    [veff_build]. *)
Lemma trace_with_veff (jkb jkb' : list mat -> list mat * list mat)
      (jf jz : mat -> mat * mat) (g : Gradients) (x_y : mat * mat) (singlet : bool) :
  (forall c nocc d, veff_build jkb c nocc singlet d = veff_build jkb' c nocc singlet d) ->
  trace_with jkb jf jz g x_y singlet = trace_with jkb' jf jz g x_y singlet.
Proof.
  intros H. unfold trace_with. cbv zeta. now rewrite H.
Qed.

Lemma kernel_with_veff (jkb jkb' : list mat -> list mat * list mat)
      (jf jz : mat -> mat * mat) (g : Gradients) (x_y : mat * mat) (singlet : bool)
      (atmlst : option (list nat)) :
  (forall c nocc d, veff_build jkb c nocc singlet d = veff_build jkb' c nocc singlet d) ->
  kernel_with jkb jf jz g x_y singlet atmlst = kernel_with jkb' jf jz g x_y singlet atmlst.
Proof.
  intros H. unfold kernel_with. now rewrite (@trace_with_veff jkb jkb' jf jz g x_y singlet H).
Qed.

(** For a triplet, line 64's [vj[1]] and [vj[2]] are not read. *)
Lemma veff_build_triplet_zero_vj12 jk c nocc d :
  veff_build (zero_vj [1; 2]%nat (jk_batch jk)) c nocc false d
  = veff_build (jk_batch jk) c nocc false d.
Proof. reflexivity. Qed.

(** [vj[2]] is read for neither spin case. *)
Lemma veff_build_zero_vj2 jk c nocc singlet d :
  veff_build (zero_vj [2]%nat (jk_batch jk)) c nocc singlet d
  = veff_build (jk_batch jk) c nocc singlet d.
Proof. reflexivity. Qed.

(** What [veff_build] stores, read off lines 65-75. *)
Lemma veff_build_veff0doo jk c nocc singlet d :
  veff0doo (veff_build (jk_batch jk) c nocc singlet d)
  = sub (muls (fst (jk (dmzoo d))) two) (snd (jk (dmzoo d))).
Proof. reflexivity. Qed.

Lemma veff_build_veff0mop_triplet jk c nocc d :
  veff0mop (veff_build (jk_batch jk) c nocc false d)
  = dot3 (T c) (neg (snd (jk (add (dmzvop d) (T (dmzvop d)))))) c.
Proof. reflexivity. Qed.

Lemma veff_build_veff0mom jk c nocc singlet d :
  veff0mom (veff_build (jk_batch jk) c nocc singlet d)
  = dot3 (T c) (neg (snd (jk (sub (dmzvom d) (T (dmzvom d)))))) c.
Proof. reflexivity. Qed.

Lemma trace_veffs g x_y singlet :
  veffs (trace g x_y singlet)
  = veff_build (jk_batch (get_jk (td_scf (_td g)))) (mo_coeff (td_scf (_td g)))
               (nocc_ (trace g x_y singlet)) singlet (dens (trace g x_y singlet)).
Proof. unfold trace, trace_with. cbn [veffs nocc_ dens]. reflexivity. Qed.

Lemma trace_dens_flag g x_y s s' : dens (trace g x_y s) = dens (trace g x_y s').
Proof. unfold trace, trace_with. cbn [dens]. reflexivity. Qed.

Lemma trace_nocc_flag g x_y s s' : nocc_ (trace g x_y s) = nocc_ (trace g x_y s').
Proof. unfold trace, trace_with. cbn [nocc_]. reflexivity. Qed.

End CoulombChannels.

(** C9.  For singlet and triplet alike, [veff0mom] is the MO transform of
    [-vk[2]] alone: the Coulomb matrix [vj[2]] of [dmzvom - dmzvom^T] is
    never read, so forcing it to zero changes neither [veff0mom] nor the
    result of [kernel]. *)
Theorem veff0mom_exchange_only :
  forall (g : Gradients) (x_y : mat * mat) (singlet : bool) (atmlst : option (list nat)),
    let mf := td_scf (_td g) in
    let jk := get_jk mf in
    let t := trace g x_y singlet in
    let dm := sub (dmzvom (dens t)) (T (dmzvom (dens t))) in
    veff0mom (veffs t) = dot3 (T (mo_coeff mf)) (neg (snd (jk dm))) (mo_coeff mf)
    /\ veff0mom (veffs (trace g x_y (negb singlet))) = veff0mom (veffs t)
    /\ veff0mom (veffs (trace_with (zero_vj [2]%nat (jk_batch jk)) jk jk g x_y singlet))
       = veff0mom (veffs t)
    /\ kernel_with (zero_vj [2]%nat (jk_batch jk)) jk jk g x_y singlet atmlst
       = kernel g x_y singlet atmlst.
Proof.
  intros g x_y singlet atmlst mf jk t dm.
  assert (H1 : forall s, veff0mom (veffs (trace g x_y s))
                         = dot3 (T (mo_coeff mf)) (neg (snd (jk dm))) (mo_coeff mf)).
  { intros s. rewrite trace_veffs, veff_build_veff0mom.
    unfold dm, t. now rewrite (trace_dens_flag g x_y s singlet). }
  split; [apply H1|].
  split; [now rewrite !H1|].
  split.
  - apply (f_equal (fun tr => veff0mom (veffs tr))).
    unfold t, trace. apply trace_with_veff. intros c nocc d.
    apply veff_build_zero_vj2.
  - unfold kernel. apply kernel_with_veff. intros c nocc d.
    apply veff_build_zero_vj2.
Qed.

(** C1, as the code has it.  For a triplet the Coulomb matrices of the X+Y
    and X-Y channels ([vj[1]], [vj[2]] of line 64) do not contribute:
    [veff0mop] and [veff0mom] are the MO transforms of [-vk[1]] and [-vk[2]],
    and the result of [kernel] is unchanged when these two Coulomb matrices
    are forced to zero.  [veff0doo] and the response [fvind] are built from
    [2J-K] for a triplet as for a singlet. *)
Theorem triplet_exchange_only_channels :
  forall (g : Gradients) (x_y : mat * mat) (atmlst : option (list nat)) (singlet : bool)
         (v : vec),
    let mf := td_scf (_td g) in
    let c := mo_coeff mf in
    let jk := get_jk mf in
    let t := trace g x_y false in
    let d := dens t in
    let ts := trace g x_y singlet in
    kernel_with (zero_vj [1; 2]%nat (jk_batch jk)) jk jk g x_y false atmlst
    = kernel g x_y false atmlst
    /\ veff0mop (veffs t)
       = dot3 (T c) (neg (snd (jk (add (dmzvop d) (T (dmzvop d)))))) c
    /\ veff0mom (veffs t)
       = dot3 (T c) (neg (snd (jk (sub (dmzvom d) (T (dmzvom d)))))) c
    /\ veff0doo (veffs ts)
       = sub (muls (fst (jk (dmzoo (dens ts)))) two) (snd (jk (dmzoo (dens ts))))
    /\ fvind jk c (nocc_ ts) (nvir_ ts) v
       = (let orbv := cols_from (nocc_ ts) c in
          let orbo := cols_to (nocc_ ts) c in
          let dm := dot3 orbv (reshape_vec (nvir_ ts) (nocc_ ts) v) (T orbo) in
          ravel (dot3 (T orbv)
                      (sub (muls (fst (jk (add dm (T dm)))) two) (snd (jk (add dm (T dm)))))
                      orbo)).
Proof.
  intros g x_y atmlst singlet v mf c jk t d ts.
  split.
  { unfold kernel. apply kernel_with_veff. intros c' nocc d'.
    apply veff_build_triplet_zero_vj12. }
  split; [unfold t; now rewrite trace_veffs, veff_build_veff0mop_triplet|].
  split; [unfold t; now rewrite trace_veffs, veff_build_veff0mom|].
  split; [unfold ts; now rewrite trace_veffs, veff_build_veff0doo|].
  unfold fvind. cbv zeta. now destruct (jk _).
Qed.

(** The demo system, triplet: the occ-occ/vir-vir density [dmzoo] has a
    non-zero diagonal, so its Coulomb matrix is not zero, and [veff0doo]
    with and without it. *)
Example demo_dmzoo :
  mrepr (dmzoo (dens (trace (demo_grad false) (demo_x, demo_y) false)))
  = [[-2 # 9; -209 # 225; 89 # 75];
     [-209 # 225; -2 # 3; -92 # 225];
     [89 # 75; -92 # 225; 617 # 225]]%Q.
Proof. vm_compute. reflexivity. Qed.

Example demo_veff0doo :
  mrepr (veff0doo (veffs (trace (demo_grad false) (demo_x, demo_y) false)))
  = [[634 # 675; 209 # 450; -89 # 225];
     [209 # 450; 139 # 75; 46 # 225];
     [-89 # 225; 46 # 225; 1301 # 675]]%Q.
Proof. vm_compute. reflexivity. Qed.

Example demo_veff0doo_zero_j :
  let jk := get_jk demo_scf in
  mrepr (veff0doo (veffs (trace_with (zero_vj [0; 1; 2]%nat (jk_batch jk)) (zero_j jk) jk
                                     (demo_grad false) (demo_x, demo_y) false)))
  = [[2 # 9; 209 # 450; -89 # 225];
     [209 # 450; 2 # 3; 46 # 225];
     [-89 # 225; 46 # 225; -617 # 225]]%Q.
Proof. vm_compute. reflexivity. Qed.

Example demo_triplet_gradient :
  rrepr (snd (kernel (demo_grad false) (demo_x, demo_y) false None))
  = Ok [[70488997 # 13668750; 50622167 # 2733750; 435732673 # 13668750];
        [156785669 # 6834375; 50513146 # 1366875; 348345791 # 6834375]]%Q.
Proof. vm_compute. reflexivity. Qed.

Example demo_triplet_gradient_zero_j :
  let jk := get_jk demo_scf in
  rrepr (snd (kernel_with (zero_vj [0; 1; 2]%nat (jk_batch jk)) (zero_j jk) jk
                          (demo_grad false) (demo_x, demo_y) false None))
  = Ok [[6181781 # 546750; 88098931 # 2733750; 145288957 # 2733750];
        [8360611 # 273375; 13388074 # 273375; 18415537 # 273375]]%Q.
Proof. vm_compute. reflexivity. Qed.

(** C1, as stated, fails: on the demo system, a triplet evaluation changes
    when every Coulomb matrix of line 64 and of [fvind] is forced to zero,
    and so does [veff0doo]. *)
Lemma triplet_coulomb_counterexample :
  let g := demo_grad false in
  let jk := get_jk demo_scf in
  let zeroed := kernel_with (zero_vj [0; 1; 2]%nat (jk_batch jk)) (zero_j jk) jk in
  snd (zeroed g (demo_x, demo_y) false None) <> snd (kernel g (demo_x, demo_y) false None)
  /\ veff0doo (veffs (trace_with (zero_vj [0; 1; 2]%nat (jk_batch jk)) (zero_j jk) jk
                                 g (demo_x, demo_y) false))
     <> veff0doo (veffs (trace g (demo_x, demo_y) false)).
Proof.
  split; intro H.
  - apply (f_equal (fun r => match r with Ok m => mrepr m | Raise _ => [] end)) in H.
    vm_compute in H. discriminate H.
  - apply (f_equal mrepr) in H. vm_compute in H. discriminate H.
Qed.

(* ================================================================== *)
(** * The driver [Gradients.kernel] *)
(* ================================================================== *)

Section Driver.


Lemma same_inputs_log g evs : same_inputs g (log g evs).
Proof. repeat split. Qed.

Lemma same_inputs_set_de g a : same_inputs g (set_de g a).
Proof. repeat split. Qed.

Lemma same_inputs_trans g1 g2 g3 :
  same_inputs g1 g2 -> same_inputs g2 g3 -> same_inputs g1 g3.
Proof.
  unfold same_inputs. intros (?&?&?&?&?) (?&?&?&?&?).
  repeat split; congruence.
Qed.

(** [kernel] reads neither [de] nor [stdout]. *)
Lemma kernel_same_inputs g g' : same_inputs g g' -> kernel g = kernel g'.
Proof.
  destruct g, g'. unfold same_inputs. cbn. intros (-> & -> & -> & -> & ->).
  reflexivity.
Qed.





(** The contraction loop. *)
Lemma length_vzip f a b : length (vzip f a b) = length a.
Proof. apply length_tab1. Qed.

Lemma atom_grad_ok g v4 o dz d l ia :
  (ia < length (offset_nr_by_atom (mol g)))%nat ->
  exists row, atom_grad g v4 o dz d l ia = Ok row /\ length row = 3%nat.
Proof.
  intros Hia. unfold atom_grad.
  destruct (nth_error (offset_nr_by_atom (mol g)) ia) as [[[[shl0 shl1] p0] p1]|] eqn:E.
  - eexists. split; [reflexivity|].
    unfold vadd, vsub. rewrite !length_vzip. unfold vset. now rewrite length_tab1.
  - apply nth_error_None in E. lia.
Qed.

Lemma mapM_ok (A B : Type) (f : A -> pyres B) (P : B -> Prop) (l : list A) :
  Forall (fun a => exists b, f a = Ok b /\ P b) l ->
  exists bs, mapM f l = Ok bs /\ length bs = length l /\ Forall P bs.
Proof.
  induction 1 as [|a l [b [Hb HP]] _ [bs [Hbs [Hl HF]]]].
  - exists []. repeat split. constructor.
  - exists (b :: bs). cbn. rewrite Hb. cbn. rewrite Hbs. cbn.
    repeat split; [now rewrite Hl | now constructor].
Qed.

(** The stand-ins of the demo system keep the shape of their argument. *)
Lemma shape_zdo_jk u dm n :
  shape n n dm -> shape n n (fst (zdo_jk u dm)) /\ shape n n (snd (zdo_jk u dm)).
Proof.
  intros H. unfold zdo_jk. cbn [fst snd].
  destruct n as [|n].
  - destruct H as [Hl _]. apply length_zero_iff_nil in Hl. subst dm.
    split; (split; [reflexivity | constructor]).
  - rewrite (shape_nrows H), (shape_ncols H (Nat.lt_0_succ n)). split; apply shape_tab.
Qed.

Lemma shape_demo_cphf_solve fv e occ w mc tol r c :
  shape r c w -> shape r c (demo_cphf_solve fv e occ w mc tol).
Proof.
  intros H. unfold demo_cphf_solve. cbv zeta.
  destruct r as [|r].
  - destruct H as [Hl _]. apply length_zero_iff_nil in Hl. subst w.
    split; [reflexivity | constructor].
  - rewrite (shape_nrows H), (shape_ncols H (Nat.lt_0_succ r)).
    unfold sub, mul at 1. rewrite (zip_shape _ _ H (Nat.lt_0_succ r)).
    rewrite (zip_shape _ _ (shape_neg (shape_tab _ _ _)) (Nat.lt_0_succ r)).
    apply shape_tab.
Qed.

(** The demo system has the shapes of [well_shaped], for amplitudes of
    shape [1 x 2], with [nao = 3] and [nvir = 2]. *)
Lemma demo_well_shaped (m : Mole) (singlet : bool) (x y : mat) :
  shape 1 2 x -> shape 1 2 y ->
  well_shaped (init m (demo_td singlet) demo_ext) (x, y) 3 2.
Proof.
  intros Hx Hy. constructor.
  - lia.
  - cbn. lia.
  - lia.
  - split; [reflexivity | repeat constructor].
  - reflexivity.
  - reflexivity.
  - exact Hx.
  - exact Hy.
  - intros dm H. exact (shape_zdo_jk demo_u H).
  - intros fv w H. now apply shape_demo_cphf_solve.
  - intros ia. split; [reflexivity|].
    change (hcore_generator (ext (init m (demo_td singlet) demo_ext)))
      with (hcore_generator demo_ext).
    cbn [hcore_generator demo_ext map seq].
    repeat (apply Forall_cons; [apply shape_tab|]). apply Forall_nil.
  - split; [reflexivity|].
    change (get_ovlp (ext (init m (demo_td singlet) demo_ext))) with (get_ovlp demo_ext).
    cbn [get_ovlp demo_ext map seq].
    repeat (apply Forall_cons; [apply shape_tab|]). apply Forall_nil.
  - intros dm H.
    change (grad_get_jk (ext (init m (demo_td singlet) demo_ext)) dm)
      with (map (fun x0 => fst (zdo_jk (demo_du x0) dm)) (seq 0 3),
            map (fun x0 => snd (zdo_jk (demo_du x0) dm)) (seq 0 3)).
    cbn [fst snd map seq].
    split; (split; [reflexivity|]);
      repeat (apply Forall_cons; [apply (shape_zdo_jk _ H)|]); apply Forall_nil.
Qed.

(** On the shapes of [well_shaped] the reshapes of lines 52-53 and 85 act
    on arrays of exactly [nocc*nvir] entries: no entry is dropped and none
    is read beyond the end. *)
Lemma length_ravel r c (m : mat) : shape r c m -> length (ravel m) = (r * c)%nat.
Proof.
  intros [Hl Hf]. subst r. unfold ravel.
  induction m as [|row m IH]; [reflexivity|].
  inversion Hf as [|? ? Hrow Hrest]; subst.
  cbn [concat length]. rewrite length_app, (IH Hrest). cbn. lia.
Qed.

Lemma well_shaped_reshape_sizes g x y nao nvir :
  well_shaped g (x, y) nao nvir ->
  let mf := td_scf (_td g) in
  let nocc := count_nocc (mo_occ mf) in
  length (ravel (add x y)) = (nocc * nvir)%nat
  /\ length (ravel (sub x y)) = (nocc * nvir)%nat
  /\ forall fv w, shape nvir nocc w ->
       length (ravel (cphf_solve (ext g) fv (mo_energy mf) (mo_occ mf) w
                                 (cphf_max_cycle g) (cphf_conv_tol g)))
       = (nvir * nocc)%nat.
Proof.
  intros H mf nocc. pose proof (ws_x H) as Hx. cbn [fst] in Hx. fold mf nocc in Hx.
  pose proof (ws_nocc H) as Hn. fold mf nocc in Hn.
  split; [|split].
  - apply length_ravel. unfold add. rewrite (zip_shape _ _ Hx Hn). apply shape_tab.
  - apply length_ravel. unfold sub. rewrite (zip_shape _ _ Hx Hn). apply shape_tab.
  - intros fv w Hw. apply length_ravel. now apply (ws_cphf_solve H).
Qed.

Lemma kernel_ok g x_y singlet atmlst :
  Forall (fun ia => (ia < length (offset_nr_by_atom (mol g)))%nat) atmlst ->
  exists elec, snd (kernel g x_y singlet (Some atmlst)) = Ok elec
               /\ shape (length atmlst) 3 elec.
Proof.
  intros H. unfold kernel, kernel_with.
  set (t := trace_with _ _ _ _ _ _).
  destruct (@mapM_ok _ _ (atom_grad g (vhf1 t) (oo0 t) (dmz1doo t) (dens t) (lagr t))
                    (fun row => length row = 3%nat) atmlst) as [bs [Hbs [Hl HF]]].
  { eapply Forall_impl; [|exact H]. intros ia Hia. now apply atom_grad_ok. }
  exists bs. rewrite Hbs. cbn. repeat split; assumption.
Qed.

Lemma shape_add r c a b : shape r c a -> shape r c (add a b).
Proof.
  intros H. destruct r as [|r].
  - destruct a; [|destruct H; discriminate]. split; [reflexivity | constructor].
  - unfold add. rewrite (zip_shape _ _ H (Nat.lt_0_succ r)). apply shape_tab.
Qed.

Lemma index_spec (A : Type) (l : list A) (i : Z) (d : A) :
  index l i =
  let n := Z.of_nat (length l) in
  if ((0 <=? i) && (i <? n))%Z then Ok (nth (Z.to_nat i) l d)
  else if ((- n <=? i) && (i <? 0))%Z then Ok (nth (Z.to_nat (n + i)) l d)
  else Raise IndexError.
Proof.
  unfold index. cbv zeta.
  destruct (Z.ltb_spec i 0).
  - destruct (Z.leb_spec 0 i); [lia|]. cbn [andb].
    destruct (Z.leb_spec (- Z.of_nat (length l)) i).
    + destruct (Z.leb_spec 0 (Z.of_nat (length l) + i)); [|lia].
      destruct (Z.ltb_spec (Z.of_nat (length l) + i) (Z.of_nat (length l))); [|lia].
      cbn [andb]. rewrite (nth_error_nth' l d) by lia. reflexivity.
    + destruct (Z.leb_spec 0 (Z.of_nat (length l) + i)); [lia|]. reflexivity.
  - destruct (Z.leb_spec 0 i); [|lia]. cbn [andb].
    destruct (Z.ltb_spec i (Z.of_nat (length l))).
    + rewrite (nth_error_nth' l d) by lia. reflexivity.
    + destruct (Z.leb_spec (- Z.of_nat (length l)) i); reflexivity.
Qed.

Lemma index_state (A : Type) (l : list A) (state : Z) (d : A) :
  state <> 0%Z ->
  index l (state - 1) =
  let n := Z.of_nat (length l) in
  if ((1 <=? state) && (state <=? n))%Z then Ok (nth (Z.to_nat (state - 1)) l d)
  else if ((- n <? state) && (state <? 0))%Z then Ok (nth (Z.to_nat (n + state - 1)) l d)
  else Raise IndexError.
Proof.
  intros E. rewrite (index_spec l (state - 1) d). cbv zeta.
  set (n := Z.of_nat (length l)).
  replace (n + (state - 1))%Z with (n + state - 1)%Z by lia.
  destruct (Z.leb_spec 1 state), (Z.leb_spec 0 (state - 1)); try lia; cbn [andb].
  - destruct (Z.leb_spec state n), (Z.ltb_spec (state - 1) n); try lia; cbn [andb].
    + reflexivity.
    + destruct (Z.ltb_spec state 0); [lia|]. rewrite andb_false_r.
      destruct (Z.ltb_spec (state - 1) 0); [lia|]. now rewrite andb_false_r.
  - destruct (Z.ltb_spec (- n) state), (Z.leb_spec (- n) (state - 1)); try lia; cbn [andb].
    + destruct (Z.ltb_spec state 0), (Z.ltb_spec (state - 1) 0); try lia; reflexivity.
    + reflexivity.
Qed.

End Driver.

(** C3.  With [state = 0] the driver, for every atom list (given or not) and
    whatever the other arguments are, returns exactly what the ground-state
    reference's [nuc_grad_method().kernel(atmlst=atmlst)] returns; the only
    effect is the warning appended to the log: no timer of the excited-state
    pipeline is logged, [self.de] is not touched, and the result is the same
    whatever the CPHF solver, the derivative integrals and the convergence
    settings of the object are. *)
Theorem ground_state_bypass :
  forall (self : Gradients) (xy : option (mat * mat)) (singlet : option bool)
         (atmlst : option (list nat)),
    Gradients_kernel self xy 0 singlet atmlst
    = (nuc_grad_method_kernel (_scf self) atmlst, log self [Warn state0_warning])
    /\ stdout (snd (Gradients_kernel self xy 0 singlet atmlst))
       = stdout self ++ [Warn state0_warning]
    /\ de (snd (Gradients_kernel self xy 0 singlet atmlst)) = de self
    /\ (forall (e' : External) (max_cycle : nat) (tol : Qc),
          fst (Gradients_kernel
                 {| mol := mol self; _td := _td self; ext := e';
                    cphf_max_cycle := max_cycle; cphf_conv_tol := tol;
                    de := de self; stdout := stdout self |}
                 xy 0 singlet atmlst)
          = fst (Gradients_kernel self xy 0 singlet atmlst)).
Proof.
  intros self xy singlet atmlst. unfold Gradients_kernel. cbn [Z.eqb].
  split; [reflexivity|]. split; [reflexivity|]. split; [reflexivity|].
  intros e' max_cycle tol. reflexivity.
Qed.

(** C6.  With [state >= 1], on arrays of the shapes the file assumes
    ([well_shaped], and [grad_nuc] returning one row of three entries per
    atom), with [state] at most the number of stored states when [xy] is
    unspecified, and every atom of the list known to the molecule: an
    unspecified [xy] is [td.xy[state-1]], an unspecified [singlet] is
    [td.singlet], an unspecified [atmlst] is [range(mol.natm)]; the
    electronic gradient [grad_elec] returns an array of shape
    [(len(atmlst), 3)], and the driver returns (and stores in [self.de]) its
    sum with [grad_nuc(atmlst=atmlst)], of the same shape. *)
Theorem driver_defaults_and_sum :
  forall (self : Gradients) (xy : option (mat * mat)) (state : Z)
         (singlet : option bool) (atmlst : option (list nat)) (nao nvir : nat),
    (1 <= state)%Z ->
    (xy = None -> (state <= Z.of_nat (length (Tdrhf.xy (_td self))))%Z) ->
    let xy' := match xy with
               | Some v => v
               | None => nth (Z.to_nat (state - 1)) (Tdrhf.xy (_td self)) ([], [])
               end in
    let singlet' := match singlet with Some s => s | None => td_singlet (_td self) end in
    let atmlst' := match atmlst with Some l => l | None => seq 0 (natm (mol self)) end in
    well_shaped self xy' nao nvir ->
    shape (length atmlst') 3 (grad_nuc (ext self) atmlst') ->
    Forall (fun ia => (ia < length (offset_nr_by_atom (mol self)))%nat) atmlst' ->
    exists elec,
      snd (grad_elec self xy' singlet' (Some atmlst')) = Ok elec
      /\ shape (length atmlst') 3 elec
      /\ fst (Gradients_kernel self xy state singlet atmlst)
         = Ok (add elec (grad_nuc (ext self) atmlst'))
      /\ shape (length atmlst') 3 (add elec (grad_nuc (ext self) atmlst'))
      /\ de (snd (Gradients_kernel self xy state singlet atmlst))
         = DeArray (add elec (grad_nuc (ext self) atmlst')).
Proof.
  intros self xy state singlet atmlst nao nvir Hs Hxy xy' singlet' atmlst' _ _ Hat.
  destruct (kernel_ok self xy' singlet' Hat) as [elec [Hk Hsh]].
  exists elec. unfold grad_elec.
  split; [exact Hk|]. split; [exact Hsh|].
  assert (Hidx : match xy with
                 | None => index (Tdrhf.xy (_td self)) (state - 1)
                 | Some v => Ok v
                 end = Ok xy').
  { unfold xy'. destruct xy as [v|]; [reflexivity|].
    rewrite (index_spec _ _ ([], [])). cbv zeta.
    specialize (Hxy eq_refl).
    destruct (Z.leb_spec 0 (state - 1)); [|lia].
    destruct (Z.ltb_spec (state - 1) (Z.of_nat (length (Tdrhf.xy (_td self))))); [|lia].
    reflexivity. }
  unfold Gradients_kernel.
  destruct (Z.eqb_spec state 0); [lia|].
  rewrite Hidx. fold singlet' atmlst'. unfold grad_elec.
  rewrite <- (kernel_same_inputs (same_inputs_log self (check_sanity (ext self)))).
  destruct (kernel self xy' singlet' (Some atmlst')) as [evs r]. cbn [snd] in Hk.
  subst r. cbn [fst snd de set_de log ext].
  split; [reflexivity|]. split; [now apply shape_add | reflexivity].
Qed.

Lemma driver_defaults_and_sum_witness :
  let self := demo_grad true in
  exists elec,
    snd (grad_elec self (nth 1 (Tdrhf.xy (_td self)) ([], [])) true (Some [0; 1]%nat))
    = Ok elec
    /\ shape 2 3 elec
    /\ fst (Gradients_kernel self None 2 None None)
       = Ok (add elec (grad_nuc (ext self) [0; 1]%nat))
    /\ shape 2 3 (add elec (grad_nuc (ext self) [0; 1]%nat))
    /\ de (snd (Gradients_kernel self None 2 None None))
       = DeArray (add elec (grad_nuc (ext self) [0; 1]%nat)).
Proof.
  intros self.
  apply (@driver_defaults_and_sum self None 2 None None 3 2).
  - lia.
  - intros _. cbn. lia.
  - refine (@demo_well_shaped demo_mol true [[q 1 5; q (-1) 2]] [[q 0 1; q 1 7]] _ _);
      (split; [reflexivity | repeat constructor]).
  - split; [reflexivity | repeat constructor].
  - repeat constructor.
Defined.

(** C6, as stated for every call with [state >= 1], fails: on the demo
    system, whose arrays all have the right shapes, [state = 4] with three
    stored states raises [IndexError] at [td.xy[state-1]], and so does an
    atom list naming an atom the molecule does not have; no array is
    returned. *)
Lemma driver_state_beyond_stored_counterexample :
  (1 <= 4)%Z
  /\ fst (Gradients_kernel (demo_grad true) None 4 None None) = Raise IndexError
  /\ fst (Gradients_kernel (demo_grad true) None 1 None (Some [5]%nat)) = Raise IndexError.
Proof.
  split; [lia|]. split; vm_compute; reflexivity.
Qed.


Lemma rrepr_inj (r r' : pyres mat) : rrepr r = rrepr r' -> r = r'.
Proof.
  destruct r as [m|e], r' as [m'|e']; cbn; intros H; try discriminate.
  - injection H as H. f_equal. now apply mrepr_inj.
  - injection H as H. now f_equal.
Qed.

(** C10, as the code has it.  With [xy] unspecified and [state <> 0] the
    driver reads [td.xy[state-1]] with Python's indexing and nothing else:
    for [1 <= state <= len] it runs on the stored pair number [state-1]; for
    [-len < state < 0] it runs, silently, on the pair at the Python index
    [state-1], that is [td.xy[len+state-1]] (for [state = -1] the
    second-to-last pair); every other state raises [IndexError] and leaves
    the object as it was. *)
Theorem state_index_unchecked :
  forall (self : Gradients) (state : Z) (singlet : option bool)
         (atmlst : option (list nat)),
    let l := Tdrhf.xy (_td self) in
    let n := Z.of_nat (length l) in
    let run := fun v => Gradients_kernel self (Some v) state singlet atmlst in
    Gradients_kernel self None state singlet atmlst
    = if (state =? 0)%Z
      then (nuc_grad_method_kernel (_scf self) atmlst, log self [Warn state0_warning])
      else if ((1 <=? state) && (state <=? n))%Z
           then run (nth (Z.to_nat (state - 1)) l ([], []))
           else if ((- n <? state) && (state <? 0))%Z
                then run (nth (Z.to_nat (n + state - 1)) l ([], []))
                else (Raise IndexError, self).
Proof.
  intros self state singlet atmlst l n run.
  unfold run, Gradients_kernel. fold l.
  destruct (Z.eqb_spec state 0) as [E|E]; [reflexivity|].
  rewrite (index_state l ([], []) E). cbv zeta. fold n.
  destruct ((1 <=? state) && (state <=? n))%Z; [reflexivity|].
  destruct ((- n <? state) && (state <? 0))%Z; reflexivity.
Qed.

(** The demo driver: three stored states; [state = -1] gives the gradient
    of [td.xy[-2]], [state = 3] that of the last state, [state = 0] the
    ground-state gradient. *)
Example demo_state_minus_one :
  rrepr (fst (Gradients_kernel (demo_grad true) None (-1) None None))
  = Ok [[825612367 # 148837500; 153766861 # 14883750; 1106257739 # 74418750];
        [1431264343 # 148837500; 109513748 # 7441875; 106660534 # 5315625]]%Q.
Proof. vm_compute. reflexivity. Qed.

Example demo_state_three :
  rrepr (fst (Gradients_kernel (demo_grad true) None 3 None None))
  = Ok [[566978731 # 157464000; 32902439 # 7873200; 709752829 # 157464000];
        [2506053949 # 157464000; 190287899 # 7873200; 5144828011 # 157464000]]%Q.
Proof. vm_compute. reflexivity. Qed.

Example demo_state_zero :
  rrepr (fst (Gradients_kernel (demo_grad true) None 0 None None))
  = Ok [[0; 0; -1 # 4]; [0; 0; 1 # 4]]%Q.
Proof. vm_compute. reflexivity. Qed.

(** C10, as stated, fails: with three stored states, [state = -1] returns
    the gradient of the second state ([td.xy[-2]]), which differs from that
    of the last one; with a single stored state it raises [IndexError]. *)
Lemma negative_state_counterexample :
  let g := demo_grad true in
  fst (Gradients_kernel g None (-1) None None) = fst (Gradients_kernel g None 2 None None)
  /\ fst (Gradients_kernel g None (-1) None None) <> fst (Gradients_kernel g None 3 None None)
  /\ fst (Gradients_kernel demo_grad_one None (-1) None None) = Raise IndexError.
Proof.
  split; [|split].
  - apply rrepr_inj. vm_compute. reflexivity.
  - intro H. apply (f_equal rrepr) in H. vm_compute in H. discriminate H.
  - vm_compute. reflexivity.
Qed.

(* ================================================================== *)
(** * The Tamm-Dancoff limit (lines 51-53) *)
(* ================================================================== *)

Lemma add_zeros r c x : shape r c x -> (0 < r)%nat -> add x (zeros r c) = x.
Proof.
  intros H Hr. unfold add. rewrite (zip_shape _ _ H Hr).
  transitivity (tab r c (get x)); [|now apply tab_get].
  apply tab_ext. intros i j Hi Hj.
  unfold zeros. rewrite get_tab by assumption. ring.
Qed.

Lemma sub_zeros r c x : shape r c x -> (0 < r)%nat -> sub x (zeros r c) = x.
Proof.
  intros H Hr. unfold sub. rewrite (zip_shape _ _ H Hr).
  transitivity (tab r c (get x)); [|now apply tab_get].
  apply tab_ext. intros i j Hi Hj.
  unfold zeros. rewrite get_tab by assumption. ring.
Qed.

(** C7.  When [Y] is the zero matrix, [xpy] and [xmy] are both the
    transpose of [X] (the reshape to occ x vir leaves [X] as it is); hence
    [dmzvop = dmzvom], and the [xpy] term and the [xmy] term of [dvv] and
    of [doo] are pairwise equal. *)
Theorem tda_limit :
  forall (g : Gradients) (x : mat) (singlet : bool) (nocc nvir : nat),
    let mf := td_scf (_td g) in
    count_nocc (mo_occ mf) = nocc ->
    (ncols (mo_coeff mf) - nocc)%nat = nvir ->
    shape nocc nvir x ->
    (0 < nocc)%nat ->
    let d := dens (trace g (x, zeros nocc nvir) singlet) in
    xpy d = T x
    /\ xmy d = T x
    /\ dmzvop d = dmzvom d
    /\ einsum_ai_bi_ab (xpy d) (xpy d) = einsum_ai_bi_ab (xmy d) (xmy d)
    /\ einsum_ai_aj_ij (xpy d) (xpy d) = einsum_ai_aj_ij (xmy d) (xmy d).
Proof.
  intros g x singlet nocc nvir mf Hocc Hvir Hx Hnocc d.
  assert (Hd : d = densities (mo_coeff mf) nocc nvir (x, zeros nocc nvir)).
  { unfold d, trace, trace_with. cbn [dens]. fold mf. now rewrite Hocc, Hvir. }
  assert (Hp : xpy d = T x).
  { rewrite Hd. unfold densities. cbn [xpy].
    now rewrite (add_zeros Hx Hnocc), (reshape_id Hx). }
  assert (Hm : xmy d = T x).
  { rewrite Hd. unfold densities. cbn [xmy].
    now rewrite (sub_zeros Hx Hnocc), (reshape_id Hx). }
  assert (Hpm : xpy d = xmy d) by now rewrite Hp, Hm.
  split; [exact Hp|]. split; [exact Hm|].
  split; [|now rewrite Hpm].
  rewrite Hd in *. unfold densities in *. cbn [xpy xmy dmzvop dmzvom] in *.
  now rewrite Hpm.
Qed.

Lemma tda_limit_witness :
  let d := dens (trace (demo_grad true) (demo_x, zeros 1 2) true) in
  xpy d = T demo_x
  /\ xmy d = T demo_x
  /\ dmzvop d = dmzvom d
  /\ einsum_ai_bi_ab (xpy d) (xpy d) = einsum_ai_bi_ab (xmy d) (xmy d)
  /\ einsum_ai_aj_ij (xpy d) (xpy d) = einsum_ai_aj_ij (xmy d) (xmy d).
Proof.
  apply (@tda_limit (demo_grad true) demo_x true 1 2).
  - reflexivity.
  - reflexivity.
  - split; [reflexivity | repeat constructor].
  - lia.
Defined.

(** C7, as stated for every intermediate, fails: on the demo system with
    [Y] the zero matrix, [xpy = xmy] and [dmzvop = dmzvom], yet [veff0mop]
    (from [dmzvop + dmzvop^T], lines 67-71) differs from [veff0mom] (from
    [dmzvom - dmzvom^T], lines 74-75), for a singlet and for a triplet, and
    channel 2 of [vhf1] differs from channel 3. *)
Lemma tda_veff_counterexample :
  let t := trace (demo_grad true) (demo_x, zeros 1 2) true in
  let t' := trace (demo_grad false) (demo_x, zeros 1 2) false in
  xpy (dens t) = xmy (dens t)
  /\ dmzvop (dens t) = dmzvom (dens t)
  /\ veff0mop (veffs t) <> veff0mom (veffs t)
  /\ veff0mop (veffs t') <> veff0mom (veffs t')
  /\ nth 2 (vhf1 t) [] <> nth 3 (vhf1 t) [].
Proof.
  split; [|split; [|split; [|split]]].
  - apply mrepr_inj. vm_compute. reflexivity.
  - apply mrepr_inj. vm_compute. reflexivity.
  - intro H. apply (f_equal mrepr) in H. vm_compute in H. discriminate H.
  - intro H. apply (f_equal mrepr) in H. vm_compute in H. discriminate H.
  - intro H. apply (f_equal (map mrepr)) in H. vm_compute in H. discriminate H.
Qed.

(* ================================================================== *)
(** * Further properties of the kernel and of the driver *)
(* ================================================================== *)

Unset Implicit Arguments.

Section MoreArrayFacts.

Local Open Scope Qc_scope.

Lemma get_nil i j : get [] i j = 0.
Proof. unfold get. destruct i, j; reflexivity. Qed.

(** Reading a table anywhere: outside its shape the default is read. *)
Lemma get_tab_full r c f i j :
  get (tab r c f) i j = if ((i <? r) && (j <? c))%nat then f i j else 0.
Proof.
  destruct (Nat.ltb_spec i r) as [Hi|Hi]; cbn [andb].
  - destruct (Nat.ltb_spec j c) as [Hj|Hj].
    + now apply get_tab.
    + unfold get. rewrite row_tab by assumption.
      apply nth_overflow. now rewrite length_tab1.
  - unfold get. rewrite (nth_overflow (tab r c f)) by now (fold (nrows (tab r c f)); rewrite nrows_tab).
    now destruct j.
Qed.

Lemma ncols_tab_sq n f : ncols (tab n n f) = n.
Proof. destruct n; [reflexivity | apply ncols_tab; lia]. Qed.

Lemma nrows_neg m : nrows (neg m) = nrows m.
Proof. apply length_map. Qed.

Lemma ncols_neg m : ncols (neg m) = ncols m.
Proof. apply ncols_map. Qed.

Lemma sum_n_0 f : sum_n 0 f = 0.
Proof. reflexivity. Qed.

Lemma sum_n_zero n : sum_n n (fun _ => 0) = 0.
Proof.
  induction n as [|n IH]; [reflexivity|]. rewrite sum_n_S, IH. ring.
Qed.

Lemma sum_n_mul_r n f k : sum_n n f * k = sum_n n (fun i => f i * k).
Proof.
  induction n as [|n IH]; [unfold sum_n; cbn; ring|].
  rewrite !sum_n_S, <- IH. ring.
Qed.

Lemma sum_n_mul_l n f k : k * sum_n n f = sum_n n (fun i => k * f i).
Proof.
  induction n as [|n IH]; [unfold sum_n; cbn; ring|].
  rewrite !sum_n_S, <- IH. ring.
Qed.

Lemma symmetric_tab n f :
  (forall i j, (i < n)%nat -> (j < n)%nat -> f i j = f j i) -> symmetric (tab n n f).
Proof.
  intros H i j. rewrite !get_tab_full, (andb_comm (j <? n)%nat).
  destruct (Nat.ltb_spec i n), (Nat.ltb_spec j n); cbn [andb]; auto.
Qed.

Lemma symmetric_neg m : symmetric m -> symmetric (neg m).
Proof. intros H i j. now rewrite !get_neg, (H i j). Qed.

Lemma symmetric_zip f a b :
  ncols a = nrows a -> symmetric a -> symmetric b -> symmetric (zip f a b).
Proof.
  intros Hsq Ha Hb i j. unfold zip. rewrite !get_tab_full, Hsq.
  rewrite (andb_comm (j <? nrows a)%nat), (Ha i j), (Hb i j). reflexivity.
Qed.

Lemma einsum_ai_bi_ab_symmetric a : symmetric (einsum_ai_bi_ab a a).
Proof.
  unfold einsum_ai_bi_ab. apply symmetric_tab. intros i j _ _.
  apply sum_n_ext. intros k _. ring.
Qed.

Lemma einsum_ai_aj_ij_symmetric a : symmetric (einsum_ai_aj_ij a a).
Proof.
  unfold einsum_ai_aj_ij. apply symmetric_tab. intros i j _ _.
  apply sum_n_ext. intros k _. ring.
Qed.

End MoreArrayFacts.

(** X1.  The occupied-occupied and virtual-virtual difference densities of
    lines 57-58 are symmetric matrices, for every input. *)
Theorem dvv_doo_symmetric :
  forall (g : Gradients) (x_y : mat * mat) (singlet : bool),
    symmetric (dvv (dens (trace g x_y singlet)))
    /\ symmetric (doo (dens (trace g x_y singlet))).
Proof.
  intros g [x y] singlet. unfold trace, trace_with. cbn [dens].
  unfold densities. cbn [dvv doo]. split.
  - apply symmetric_zip.
    + unfold einsum_ai_bi_ab. now rewrite ncols_tab_sq, nrows_tab.
    + apply einsum_ai_bi_ab_symmetric.
    + apply einsum_ai_bi_ab_symmetric.
  - apply symmetric_zip.
    + rewrite ncols_neg, nrows_neg. unfold einsum_ai_aj_ij.
      now rewrite ncols_tab_sq, nrows_tab.
    + apply symmetric_neg, einsum_ai_aj_ij_symmetric.
    + apply einsum_ai_aj_ij_symmetric.
Qed.

Section DensityInvariants.

Local Open Scope Qc_scope.

Lemma Qc_sqr_nonneg (v : Qc) : 0 <= v * v.
Proof.
  unfold Qcle, Qcmult. change (this (Q2Qc (v * v))) with (Qred (v * v)).
  rewrite Qred_correct. change (this 0) with 0%Q.
  destruct (this v) as [a b]. unfold Qle, Qmult. cbn. nia.
Qed.

Lemma sum_n_nonneg n f : (forall i, (i < n)%nat -> 0 <= f i) -> 0 <= sum_n n f.
Proof.
  induction n as [|n IH]; intros H; [apply Qcle_refl|].
  rewrite sum_n_S. replace 0 with (0 + 0) by ring.
  apply Qcplus_le_compat; [apply IH; intros i Hi; apply H; lia | apply H; lia].
Qed.

(** The densities of a gradient evaluation are those of [densities] at the
    block sizes read off the reference. *)
Lemma trace_densities g x_y singlet nocc nvir :
  count_nocc (mo_occ (td_scf (_td g))) = nocc ->
  (ncols (mo_coeff (td_scf (_td g))) - nocc)%nat = nvir ->
  dens (trace g x_y singlet) = densities (mo_coeff (td_scf (_td g))) nocc nvir x_y.
Proof.
  intros Hocc Hvir. unfold trace, trace_with. cbn [dens]. now rewrite Hocc, Hvir.
Qed.

Variables (x y : mat) (nocc nvir : nat).

Lemma s_dvv_sym a b : s_dvv x y nocc a b = s_dvv x y nocc b a.
Proof. unfold s_dvv. apply sum_n_ext. intros i _. ring. Qed.

Lemma s_doo_sym i j : s_doo x y nvir i j = s_doo x y nvir j i.
Proof.
  unfold s_doo. f_equal; [f_equal|]; apply sum_n_ext; intros a _; ring.
Qed.

Lemma s_dvv_diag_nonneg a : 0 <= s_dvv x y nocc a a.
Proof.
  unfold s_dvv. apply sum_n_nonneg. intros i _.
  replace 0 with (0 + 0) by ring.
  apply Qcplus_le_compat; apply Qc_sqr_nonneg.
Qed.

Lemma s_doo_diag_nonpos i : s_doo x y nvir i i <= 0.
Proof.
  unfold s_doo.
  replace 0 with (- 0 - 0) by ring. unfold Qcminus.
  apply Qcplus_le_compat; apply Qcopp_le_compat; apply sum_n_nonneg;
    intros a _; apply Qc_sqr_nonneg.
Qed.

End DensityInvariants.

(** X3.  For amplitudes of shape occ x vir, every diagonal entry of [dvv] is
    non-negative and every diagonal entry of [doo] is non-positive. *)
Theorem difference_density_diagonal_signs :
  forall (g : Gradients) (x y : mat) (singlet : bool) (nocc nvir a i : nat),
    let mf := td_scf (_td g) in
    count_nocc (mo_occ mf) = nocc ->
    (ncols (mo_coeff mf) - nocc)%nat = nvir ->
    shape nocc nvir x ->
    (a < nvir)%nat -> (i < nocc)%nat ->
    let d := dens (trace g (x, y) singlet) in
    (0 <= get (dvv d) a a)%Qc /\ (get (doo d) i i <= 0)%Qc.
Proof.
  intros g x y singlet nocc nvir a i mf Hocc Hvir Hx Ha Hi d.
  assert (Hnocc : (0 < nocc)%nat) by lia. assert (Hnvir : (0 < nvir)%nat) by lia.
  unfold d. rewrite (trace_densities g (x, y) singlet nocc nvir Hocc Hvir).
  rewrite (dvv_tab _ y Hx Hnocc Hnvir), (doo_tab _ y Hx Hnocc Hnvir).
  rewrite !get_tab by assumption.
  split; [apply s_dvv_diag_nonneg | apply s_doo_diag_nonpos].
Qed.

Lemma difference_density_diagonal_signs_witness :
  let d := dens (trace (demo_grad true) (demo_x, demo_y) true) in
  (0 <= get (dvv d) 1 1)%Qc /\ (get (doo d) 0 0 <= 0)%Qc.
Proof.
  apply (@difference_density_diagonal_signs (demo_grad true) demo_x demo_y true 1 2 1 0).
  - reflexivity.
  - reflexivity.
  - split; [reflexivity | repeat constructor].
  - lia.
  - lia.
Defined.

Section SymmetricDensities.

Local Open Scope Qc_scope.





End SymmetricDensities.





Section SignFlips.

Local Open Scope Qc_scope.

Lemma neg_tab r c f : neg (tab r c f) = tab r c (fun i j => - f i j).
Proof.
  unfold neg, tab, tab1. rewrite map_map. apply map_ext. intros i.
  now rewrite map_map.
Qed.

Lemma ncols_tab_any r c f g : ncols (tab r c f) = ncols (tab r c g).
Proof. destruct r; [reflexivity | now rewrite !ncols_tab by lia]. Qed.

Lemma add_neg_r x y : add x (neg y) = sub x y.
Proof.
  unfold add, sub, zip. apply tab_ext. intros i j _ _. rewrite get_neg. ring.
Qed.

Lemma sub_neg_r x y : sub x (neg y) = add x y.
Proof.
  unfold add, sub, zip. apply tab_ext. intros i j _ _. rewrite get_neg. ring.
Qed.

Lemma add_neg_neg x y : add (neg x) (neg y) = neg (add x y).
Proof.
  unfold add, zip. rewrite neg_tab, nrows_neg, ncols_neg.
  apply tab_ext. intros i j _ _. rewrite !get_neg. ring.
Qed.

Lemma sub_neg_neg x y : sub (neg x) (neg y) = neg (sub x y).
Proof.
  unfold sub, zip. rewrite neg_tab, nrows_neg, ncols_neg.
  apply tab_ext. intros i j _ _. rewrite !get_neg. ring.
Qed.

Lemma T_neg a : T (neg a) = neg (T a).
Proof.
  unfold T. rewrite neg_tab, nrows_neg, ncols_neg.
  apply tab_ext. intros i j _ _. apply get_neg.
Qed.

Lemma reshape_neg r c a : reshape r c (neg a) = neg (reshape r c a).
Proof.
  unfold reshape, reshape_vec, ravel. rewrite neg_tab.
  apply tab_ext. intros i j _ _. unfold neg, at1.
  rewrite <- concat_map. apply nth_map_0. ring.
Qed.

Lemma dot_neg_l a b : dot (neg a) b = neg (dot a b).
Proof.
  unfold dot. rewrite neg_tab, nrows_neg, ncols_neg.
  apply tab_ext. intros i j _ _. rewrite <- sum_n_opp.
  apply sum_n_ext. intros k _. rewrite get_neg. ring.
Qed.

Lemma dot_neg_r a b : dot a (neg b) = neg (dot a b).
Proof.
  unfold dot. rewrite neg_tab, ncols_neg.
  apply tab_ext. intros i j _ _. rewrite <- sum_n_opp.
  apply sum_n_ext. intros k _. rewrite get_neg. ring.
Qed.

Lemma dot3_neg_mid a b c : dot3 a (neg b) c = neg (dot3 a b c).
Proof. unfold dot3. now rewrite dot_neg_r, dot_neg_l. Qed.

Lemma einsum_ai_bi_ab_neg a : einsum_ai_bi_ab (neg a) (neg a) = einsum_ai_bi_ab a a.
Proof.
  unfold einsum_ai_bi_ab. rewrite nrows_neg, ncols_neg.
  apply tab_ext. intros p r _ _. apply sum_n_ext. intros i _.
  rewrite !get_neg. ring.
Qed.

Lemma einsum_ai_aj_ij_neg v a :
  einsum_ai_aj_ij (neg v) (neg a) = einsum_ai_aj_ij v a.
Proof.
  unfold einsum_ai_aj_ij. rewrite !nrows_neg, !ncols_neg.
  apply tab_ext. intros p r _ _. apply sum_n_ext. intros i _.
  rewrite !get_neg. ring.
Qed.

Lemma einsum_ki_ai_ak_neg v a :
  einsum_ki_ai_ak (neg v) (neg a) = einsum_ki_ai_ak v a.
Proof.
  unfold einsum_ki_ai_ak. rewrite !nrows_neg, !ncols_neg.
  apply tab_ext. intros p r _ _. apply sum_n_ext. intros i _.
  rewrite !get_neg. ring.
Qed.

(** [xpy] and [xmy] always have one shape. *)
Lemma xpy_xmy_rows c nocc nvir x_y :
  nrows (xpy (densities c nocc nvir x_y)) = nrows (xmy (densities c nocc nvir x_y))
  /\ ncols (xpy (densities c nocc nvir x_y)) = ncols (xmy (densities c nocc nvir x_y)).
Proof.
  destruct x_y as [x y]. unfold densities. cbn [xpy xmy].
  unfold T, reshape, reshape_vec. rewrite !nrows_tab.
  rewrite (ncols_tab_any nocc nvir _
             (fun i j => at1 (ravel (sub x y)) (i * nvir + j))).
  split; [reflexivity | apply ncols_tab_any].
Qed.

Lemma dvv_terms_comm p m :
  nrows p = nrows m ->
  add (einsum_ai_bi_ab m m) (einsum_ai_bi_ab p p)
  = add (einsum_ai_bi_ab p p) (einsum_ai_bi_ab m m).
Proof.
  intros Hr. unfold add, zip, einsum_ai_bi_ab.
  rewrite !nrows_tab, !ncols_tab_sq, Hr.
  apply tab_ext. intros i j _ _. ring.
Qed.

Lemma doo_terms_comm p m :
  ncols p = ncols m ->
  sub (neg (einsum_ai_aj_ij m m)) (einsum_ai_aj_ij p p)
  = sub (neg (einsum_ai_aj_ij p p)) (einsum_ai_aj_ij m m).
Proof.
  intros Hc. unfold sub, zip. rewrite !nrows_neg, !ncols_neg.
  unfold einsum_ai_aj_ij. rewrite !nrows_tab, !ncols_tab_sq, Hc.
  apply tab_ext. intros i j _ _. rewrite !get_neg. ring.
Qed.

Lemma densities_flip_y c nocc nvir x y :
  xpy (densities c nocc nvir (x, neg y)) = xmy (densities c nocc nvir (x, y))
  /\ xmy (densities c nocc nvir (x, neg y)) = xpy (densities c nocc nvir (x, y))
  /\ dmzvop (densities c nocc nvir (x, neg y)) = dmzvom (densities c nocc nvir (x, y))
  /\ dmzvom (densities c nocc nvir (x, neg y)) = dmzvop (densities c nocc nvir (x, y))
  /\ dvv (densities c nocc nvir (x, neg y)) = dvv (densities c nocc nvir (x, y))
  /\ doo (densities c nocc nvir (x, neg y)) = doo (densities c nocc nvir (x, y))
  /\ dmzoo (densities c nocc nvir (x, neg y)) = dmzoo (densities c nocc nvir (x, y)).
Proof.
  destruct (xpy_xmy_rows c nocc nvir (x, y)) as [Hr Hc].
  unfold densities in *. cbn [xpy xmy dvv doo dmzvop dmzvom dmzoo] in *.
  rewrite add_neg_r, sub_neg_r.
  rewrite (dvv_terms_comm _ _ Hr), (doo_terms_comm _ _ Hc).
  repeat (split; [reflexivity|]). reflexivity.
Qed.

Lemma densities_flip_sign c nocc nvir x y :
  xpy (densities c nocc nvir (neg x, neg y)) = neg (xpy (densities c nocc nvir (x, y)))
  /\ xmy (densities c nocc nvir (neg x, neg y)) = neg (xmy (densities c nocc nvir (x, y)))
  /\ dmzvop (densities c nocc nvir (neg x, neg y))
     = neg (dmzvop (densities c nocc nvir (x, y)))
  /\ dmzvom (densities c nocc nvir (neg x, neg y))
     = neg (dmzvom (densities c nocc nvir (x, y)))
  /\ dvv (densities c nocc nvir (neg x, neg y)) = dvv (densities c nocc nvir (x, y))
  /\ doo (densities c nocc nvir (neg x, neg y)) = doo (densities c nocc nvir (x, y))
  /\ dmzoo (densities c nocc nvir (neg x, neg y)) = dmzoo (densities c nocc nvir (x, y)).
Proof.
  unfold densities. cbn [xpy xmy dvv doo dmzvop dmzvom dmzoo].
  rewrite add_neg_neg, sub_neg_neg, !reshape_neg, !T_neg.
  rewrite !einsum_ai_bi_ab_neg, !einsum_ai_aj_ij_neg, !dot3_neg_mid.
  repeat (split; [reflexivity|]). reflexivity.
Qed.

End SignFlips.

(** X6.  Changing the sign of [Y] exchanges the X+Y and X-Y quantities:
    [xpy] with [xmy] and [dmzvop] with [dmzvom]; [dvv], [doo] and [dmzoo]
    stay as they are. *)
Theorem flip_y_exchanges_channels :
  forall (g : Gradients) (x y : mat) (singlet : bool),
    let d := dens (trace g (x, y) singlet) in
    let d' := dens (trace g (x, neg y) singlet) in
    xpy d' = xmy d /\ xmy d' = xpy d
    /\ dmzvop d' = dmzvom d /\ dmzvom d' = dmzvop d
    /\ dvv d' = dvv d /\ doo d' = doo d /\ dmzoo d' = dmzoo d.
Proof.
  intros g x y singlet. unfold trace, trace_with. cbn [dens].
  apply densities_flip_y.
Qed.

(** X7.  Changing the sign of the whole amplitude pair changes the sign of
    [xpy], [xmy], [dmzvop] and [dmzvom] and leaves the quadratic densities
    [dvv], [doo] and [dmzoo] unchanged. *)
Theorem flip_sign_densities :
  forall (g : Gradients) (x y : mat) (singlet : bool),
    let d := dens (trace g (x, y) singlet) in
    let d' := dens (trace g (neg x, neg y) singlet) in
    xpy d' = neg (xpy d) /\ xmy d' = neg (xmy d)
    /\ dmzvop d' = neg (dmzvop d) /\ dmzvom d' = neg (dmzvom d)
    /\ dvv d' = dvv d /\ doo d' = doo d /\ dmzoo d' = dmzoo d.
Proof.
  intros g x y singlet. unfold trace, trace_with. cbn [dens].
  apply densities_flip_sign.
Qed.

Section SignInvariance.

Local Open Scope Qc_scope.

Lemma cols_to_neg n m : cols_to n (neg m) = neg (cols_to n m).
Proof.
  unfold cols_to, neg. rewrite !map_map. apply map_ext. intros r.
  apply firstn_map.
Qed.

Lemma cols_from_neg n m : cols_from n (neg m) = neg (cols_from n m).
Proof.
  unfold cols_from, neg. rewrite !map_map. apply map_ext. intros r.
  apply skipn_map.
Qed.

Lemma rows_to_neg n m : rows_to n (neg m) = neg (rows_to n m).
Proof. unfold rows_to, neg. apply firstn_map. Qed.

Lemma rows_from_neg n m : rows_from n (neg m) = neg (rows_from n m).
Proof. unfold rows_from, neg. apply skipn_map. Qed.

Lemma rows_neg p0 p1 m : rows p0 p1 (neg m) = neg (rows p0 p1 m).
Proof. unfold rows, neg. now rewrite firstn_map, skipn_map. Qed.

Lemma cols_neg p0 p1 m : cols p0 p1 (neg m) = neg (cols p0 p1 m).
Proof.
  unfold cols, neg. rewrite !map_map. apply map_ext. intros r.
  now rewrite firstn_map, skipn_map.
Qed.

Lemma nrows_muls m k : nrows (muls m k) = nrows m.
Proof. apply length_map. Qed.

Lemma ncols_muls m k : ncols (muls m k) = ncols m.
Proof. apply (ncols_map (fun v => v * k)). Qed.

Lemma two_j_minus_k_neg vj vk :
  sub (muls (neg vj) two) (neg vk) = neg (sub (muls vj two) vk).
Proof.
  unfold sub, zip. rewrite neg_tab, !nrows_muls, !ncols_muls, nrows_neg, ncols_neg.
  apply tab_ext. intros i j _ _. rewrite !get_muls, !get_neg. ring.
Qed.

Lemma t3_2j_minus_k_neg vj vk :
  t3_2j_minus_k (map neg vj) (map neg vk) = t3_neg (t3_2j_minus_k vj vk).
Proof.
  unfold t3_2j_minus_k, t3_zip, t3_neg. rewrite length_map, map_map.
  apply map_ext. intros x0.
  rewrite !(nth_map_nil neg) by reflexivity. apply two_j_minus_k_neg.
Qed.

Lemma t3_rows_neg p0 p1 t : t3_rows p0 p1 (t3_neg t) = t3_neg (t3_rows p0 p1 t).
Proof.
  unfold t3_rows, t3_neg. rewrite !map_map. apply map_ext. intros m.
  apply rows_neg.
Qed.

Lemma einsum_xpq_pq_x_neg t m :
  einsum_xpq_pq_x (t3_neg t) (neg m) = einsum_xpq_pq_x t m.
Proof.
  unfold einsum_xpq_pq_x, t3_neg. rewrite map_map. apply map_ext. intros tx.
  rewrite nrows_neg, ncols_neg. apply sum_n_ext. intros p _.
  apply sum_n_ext. intros r _. rewrite !get_neg. ring.
Qed.

Lemma einsum_xqp_pq_x_neg t m :
  einsum_xqp_pq_x (t3_neg t) (neg m) = einsum_xqp_pq_x t m.
Proof.
  unfold einsum_xqp_pq_x, t3_neg. rewrite map_map. apply map_ext. intros tx.
  rewrite nrows_neg, ncols_neg. apply sum_n_ext. intros p _.
  apply sum_n_ext. intros r _. rewrite !get_neg. ring.
Qed.

Variables (jk : mat -> mat * mat) (c : mat) (nocc : nat) (singlet : bool).
Variables (d d' : Densities).
Hypothesis Hjk : odd_jk jk.
Hypothesis Hxpy : xpy d' = neg (xpy d).
Hypothesis Hxmy : xmy d' = neg (xmy d).
Hypothesis Hvop : dmzvop d' = neg (dmzvop d).
Hypothesis Hvom : dmzvom d' = neg (dmzvom d).
Hypothesis Hdvv : dvv d' = dvv d.
Hypothesis Hdoo : doo d' = doo d.
Hypothesis Hzoo : dmzoo d' = dmzoo d.

Lemma veff_build_flip_sign :
  veff0doo (veff_build (jk_batch jk) c nocc singlet d')
  = veff0doo (veff_build (jk_batch jk) c nocc singlet d)
  /\ veff0mop (veff_build (jk_batch jk) c nocc singlet d')
     = neg (veff0mop (veff_build (jk_batch jk) c nocc singlet d))
  /\ veff0mom (veff_build (jk_batch jk) c nocc singlet d')
     = neg (veff0mom (veff_build (jk_batch jk) c nocc singlet d))
  /\ wvo (veff_build (jk_batch jk) c nocc singlet d')
     = wvo (veff_build (jk_batch jk) c nocc singlet d).
Proof.
  unfold veff_build, jk_batch. cbn [map nth fst snd veff0doo veff0mop veff0mom wvo].
  rewrite Hxpy, Hxmy, Hvop, Hvom, Hzoo.
  rewrite !T_neg, add_neg_neg, sub_neg_neg, !Hjk. cbn [fst snd].
  unfold einsum_ac_ai_ci.
  assert (E : (if singlet
               then sub (muls (neg (fst (jk (add (dmzvop d) (T (dmzvop d)))))) two)
                        (neg (snd (jk (add (dmzvop d) (T (dmzvop d))))))
               else neg (neg (snd (jk (add (dmzvop d) (T (dmzvop d)))))))
              = neg (if singlet
                     then sub (muls (fst (jk (add (dmzvop d) (T (dmzvop d))))) two)
                              (snd (jk (add (dmzvop d) (T (dmzvop d)))))
                     else neg (snd (jk (add (dmzvop d) (T (dmzvop d))))))).
  { destruct singlet; [apply two_j_minus_k_neg | reflexivity]. }
  rewrite E, !dot3_neg_mid.
  rewrite !rows_to_neg, !rows_from_neg, !cols_to_neg, !cols_from_neg.
  rewrite !einsum_ki_ai_ak_neg, !einsum_ai_aj_ij_neg.
  repeat (split; [reflexivity|]). reflexivity.
Qed.

Lemma lagrangian_flip_sign (jz : mat -> mat * mat) (e : vec) (nmo : nat) (v v' : Veff) z :
  veff0doo v' = veff0doo v ->
  veff0mop v' = neg (veff0mop v) ->
  veff0mom v' = neg (veff0mom v) ->
  lagrangian jz c e nocc nmo d' v' z = lagrangian jz c e nocc nmo d v z.
Proof.
  intros H0 H1 H2. unfold lagrangian.
  rewrite H0, H1, H2, Hxpy, Hxmy, Hdvv, Hdoo.
  unfold einsum_ak_ai_ki, einsum_ci_ai_ac.
  rewrite !rows_to_neg, !rows_from_neg, !cols_to_neg.
  rewrite !einsum_ki_ai_ak_neg, !einsum_ai_aj_ij_neg.
  reflexivity.
Qed.

Lemma vhf1_build_flip_sign (gjk : mat -> tensor3 * tensor3) (o dz : mat) :
  odd_grad_jk gjk ->
  nth 0 (vhf1_build gjk singlet o dz d') [] = nth 0 (vhf1_build gjk singlet o dz d) []
  /\ nth 1 (vhf1_build gjk singlet o dz d') [] = nth 1 (vhf1_build gjk singlet o dz d) []
  /\ nth 2 (vhf1_build gjk singlet o dz d') []
     = t3_neg (nth 2 (vhf1_build gjk singlet o dz d) [])
  /\ nth 3 (vhf1_build gjk singlet o dz d') []
     = t3_neg (nth 3 (vhf1_build gjk singlet o dz d) []).
Proof.
  intros Hg. unfold vhf1_build, jk_batch. cbn [map].
  rewrite Hvop, Hvom, !T_neg, add_neg_neg, sub_neg_neg, !Hg. cbn [fst snd].
  destruct singlet;
    cbn [t4_2j_minus_k map seq length nth firstn skipn app];
    rewrite ?t3_2j_minus_k_neg; repeat (split; [reflexivity|]); reflexivity.
Qed.

Lemma atom_grad_flip_sign (g : Gradients) (v4 v4' : list tensor3) (o dz : mat)
      (l : Lagrangian) (ia : nat) :
  nth 0 v4' [] = nth 0 v4 [] ->
  nth 1 v4' [] = nth 1 v4 [] ->
  nth 2 v4' [] = t3_neg (nth 2 v4 []) ->
  nth 3 v4' [] = t3_neg (nth 3 v4 []) ->
  atom_grad g v4' o dz d' l ia = atom_grad g v4 o dz d l ia.
Proof.
  intros H0 H1 H2 H3. unfold atom_grad.
  rewrite H0, H1, H2, H3, Hvop, Hvom.
  destruct (nth_error _ ia) as [[[[shl0 shl1] p0] p1]|]; [|reflexivity].
  rewrite !t3_rows_neg, !rows_neg, !cols_neg.
  rewrite !einsum_xpq_pq_x_neg, !einsum_xqp_pq_x_neg. reflexivity.
Qed.

End SignInvariance.

Lemma mapM_ext (A B : Type) (f f' : A -> pyres B) (l : list A) :
  (forall a, f a = f' a) -> mapM f l = mapM f' l.
Proof.
  intros H. induction l as [|a l IH]; [reflexivity|].
  cbn. now rewrite H, IH.
Qed.

Lemma trace_flip_sign g x y singlet :
  odd_jk (get_jk (td_scf (_td g))) ->
  odd_grad_jk (grad_get_jk (ext g)) ->
  let t := trace g (x, y) singlet in
  let t' := trace g (neg x, neg y) singlet in
  dmzvop (dens t') = neg (dmzvop (dens t))
  /\ dmzvom (dens t') = neg (dmzvom (dens t))
  /\ z1 t' = z1 t /\ lagr t' = lagr t
  /\ dmz1doo t' = dmz1doo t /\ oo0 t' = oo0 t
  /\ nth 0 (vhf1 t') [] = nth 0 (vhf1 t) []
  /\ nth 1 (vhf1 t') [] = nth 1 (vhf1 t) []
  /\ nth 2 (vhf1 t') [] = t3_neg (nth 2 (vhf1 t) [])
  /\ nth 3 (vhf1 t') [] = t3_neg (nth 3 (vhf1 t) []).
Proof.
  intros Hjk Hg. unfold trace, trace_with. cbv zeta.
  cbn [dens z1 lagr dmz1doo oo0 vhf1].
  set (mf := td_scf (_td g)) in *.
  set (c := mo_coeff mf). set (nocc := count_nocc (mo_occ mf)).
  set (nvir := (ncols c - nocc)%nat).
  destruct (densities_flip_sign c nocc nvir x y)
    as (Hp & Hm & Hvop & Hvom & Hdvv & Hdoo & Hzoo).
  set (d := densities c nocc nvir (x, y)) in *.
  set (d' := densities c nocc nvir (neg x, neg y)) in *.
  destruct (veff_build_flip_sign (get_jk mf) c nocc singlet d d' Hjk Hp Hm Hvop Hvom Hzoo)
    as (V0 & V1 & V2 & V3).
  set (v := veff_build (jk_batch (get_jk mf)) c nocc singlet d) in *.
  set (v' := veff_build (jk_batch (get_jk mf)) c nocc singlet d') in *.
  rewrite V3.
  set (z := zvector g (get_jk mf) nocc nvir (wvo v)).
  rewrite (lagrangian_flip_sign c nocc d d' Hp Hm Hdvv Hdoo
             (get_jk mf) (mo_energy mf) (ncols c) v v' z V0 V1 V2).
  rewrite Hzoo.
  split; [exact Hvop|]. split; [exact Hvom|].
  do 4 (split; [reflexivity|]).
  apply (vhf1_build_flip_sign singlet d d' Hvop Hvom); exact Hg.
Qed.

(** X8.  The gradient does not depend on the overall sign of the amplitude
    pair: when the two J/K builds change sign with the density, [kernel]
    returns for [(-X, -Y)] what it returns for [(X, Y)]. *)
Theorem kernel_sign_invariant :
  forall (g : Gradients) (x y : mat) (singlet : bool) (atmlst : option (list nat)),
    odd_jk (get_jk (td_scf (_td g))) ->
    odd_grad_jk (grad_get_jk (ext g)) ->
    kernel g (neg x, neg y) singlet atmlst = kernel g (x, y) singlet atmlst.
Proof.
  intros g x y singlet atmlst Hjk Hg.
  destruct (trace_flip_sign g x y singlet Hjk Hg)
    as (Hvop & Hvom & Hz & Hl & Hdz & Ho & H0 & H1 & H2 & H3).
  unfold kernel, kernel_with.
  change (trace_with (jk_batch (get_jk (td_scf (_td g)))) (get_jk (td_scf (_td g)))
                     (get_jk (td_scf (_td g))) g (neg x, neg y) singlet)
    with (trace g (neg x, neg y) singlet).
  change (trace_with (jk_batch (get_jk (td_scf (_td g)))) (get_jk (td_scf (_td g)))
                     (get_jk (td_scf (_td g))) g (x, y) singlet)
    with (trace g (x, y) singlet).
  cbv zeta. rewrite Hl, Hdz, Ho.
  rewrite (mapM_ext _ _ _
             (atom_grad g (vhf1 (trace g (x, y) singlet)) (oo0 (trace g (x, y) singlet))
                        (dmz1doo (trace g (x, y) singlet)) (dens (trace g (x, y) singlet))
                        (lagr (trace g (x, y) singlet)))).
  - reflexivity.
  - intros ia.
    apply (atom_grad_flip_sign (dens (trace g (x, y) singlet))
                               (dens (trace g (neg x, neg y) singlet)) Hvop Hvom);
      assumption.
Qed.

Lemma zdo_jk_odd (u : mat) : odd_jk (zdo_jk u).
Proof.
  intros dm. unfold zdo_jk. cbn [fst snd]. rewrite !neg_tab, nrows_neg, ncols_neg.
  f_equal; apply tab_ext; intros p r _ _.
  - destruct (p =? r)%nat; [|ring].
    rewrite <- sum_n_opp. apply sum_n_ext. intros s _. rewrite get_neg. ring.
  - rewrite get_neg. ring.
Qed.

Lemma demo_grad_get_jk_odd : odd_grad_jk (grad_get_jk demo_ext).
Proof.
  intros dm. cbn [grad_get_jk demo_ext fst snd]. rewrite !map_map.
  f_equal; apply map_ext; intros x0; now rewrite zdo_jk_odd.
Qed.

Lemma kernel_sign_invariant_witness :
  kernel (demo_grad true) (neg demo_x, neg demo_y) true None
  = kernel (demo_grad true) (demo_x, demo_y) true None.
Proof.
  apply (kernel_sign_invariant (demo_grad true) demo_x demo_y true None).
  - apply zdo_jk_odd.
  - apply demo_grad_get_jk_odd.
Defined.

(* ================================================================== *)
(** * Blocks of the Lagrangian, block sizes, the Tamm-Dancoff densities *)
(* ================================================================== *)

Section Blocks.

Local Open Scope Qc_scope.

Lemma get_zeros r c i j : get (zeros r c) i j = 0.
Proof. unfold zeros. rewrite get_tab_full. now destruct (_ && _). Qed.

Lemma get_set_block_zero m r0 r1 c0 c1 b i j :
  in_range r0 r1 i && in_range c0 c1 j = false ->
  get m i j = 0 -> get (set_block m r0 r1 c0 c1 b) i j = 0.
Proof.
  intros H Hm. unfold set_block. rewrite get_tab_full, H, Hm.
  now destruct ((i <? nrows m) && (j <? ncols m))%nat.
Qed.

Lemma get_iadd_block_zero m r0 r1 c0 c1 b i j :
  in_range r0 r1 i && in_range c0 c1 j = false ->
  get m i j = 0 -> get (iadd_block m r0 r1 c0 c1 b) i j = 0.
Proof.
  intros H Hm. unfold iadd_block. rewrite get_tab_full, H, Hm.
  now destruct ((i <? nrows m) && (j <? ncols m))%nat.
Qed.

Lemma occ_vir_outside_blocks nocc nmo i a :
  (i < nocc)%nat -> (nocc <= a)%nat ->
  in_range 0 nocc i && in_range 0 nocc a = false
  /\ in_range nocc nmo i && in_range nocc nmo a = false
  /\ in_range nocc nmo i && in_range 0 nocc a = false.
Proof.
  intros Hi Ha. unfold in_range.
  destruct (Nat.ltb_spec a nocc); [lia|].
  destruct (Nat.leb_spec nocc i); [lia|].
  rewrite !andb_false_r. cbn. auto.
Qed.

Lemma lagrangian_occ_vir_zero jk c e nocc nmo d v z i a :
  (i < nocc)%nat -> (nocc <= a)%nat ->
  get (im0_mo (lagrangian jk c e nocc nmo d v z)) i a = 0
  /\ get (dm1 (lagrangian jk c e nocc nmo d v z)) i a = 0
  /\ get (add (im0_mo (lagrangian jk c e nocc nmo d v z))
              (mul (zeta (lagrangian jk c e nocc nmo d v z))
                   (dm1 (lagrangian jk c e nocc nmo d v z)))) i a = 0.
Proof.
  intros Hi Ha.
  destruct (occ_vir_outside_blocks nocc nmo i a Hi Ha) as (Boo & Bvv & Bvo).
  unfold lagrangian. destruct (jk _) as [vj vk]. cbn [im0_mo dm1 zeta].
  match goal with
  | |- get ?A i a = 0 /\ get ?B i a = 0 /\ _ => set (IA := A); set (IB := B)
  end.
  assert (HA : get IA i a = 0).
  { unfold IA.
    repeat first [ apply get_iadd_block_zero; [assumption|]
                 | apply get_set_block_zero; [assumption|] ].
    apply get_zeros. }
  assert (HB : get IB i a = 0).
  { unfold IB.
    repeat first [ apply get_iadd_block_zero; [assumption|]
                 | apply get_set_block_zero; [assumption|] ].
    apply get_zeros. }
  clearbody IA IB.
  split; [exact HA|]. split; [exact HB|].
  unfold add, mul, zip. rewrite get_tab_full, HA, get_tab_full, HB.
  repeat match goal with
         | |- context [if ?t then _ else _] => destruct t
         end; ring.
Qed.

End Blocks.

(** X9.  The occupied-virtual block of the Lagrangian is never written: for
    an occupied row [i] and a virtual column [a], [im0] (before line 109)
    and [dm1] are zero there, and so is the array [im0 + zeta*dm1] that
    line 109 transforms to the AO basis. *)
Theorem lagrangian_occ_vir_block_zero :
  forall (g : Gradients) (x_y : mat * mat) (singlet : bool) (i a : nat),
    let l := lagr (trace g x_y singlet) in
    (i < count_nocc (mo_occ (td_scf (_td g))))%nat ->
    (count_nocc (mo_occ (td_scf (_td g))) <= a)%nat ->
    get (im0_mo l) i a = 0%Qc
    /\ get (dm1 l) i a = 0%Qc
    /\ get (add (im0_mo l) (mul (zeta l) (dm1 l))) i a = 0%Qc.
Proof.
  intros g x_y singlet i a l Hi Ha. unfold l, trace, trace_with. cbn [lagr].
  now apply lagrangian_occ_vir_zero.
Qed.

Lemma lagrangian_occ_vir_block_zero_witness :
  let l := lagr (trace (demo_grad true) (demo_x, demo_y) true) in
  get (im0_mo l) 0 2 = 0%Qc
  /\ get (dm1 l) 0 2 = 0%Qc
  /\ get (add (im0_mo l) (mul (zeta l) (dm1 l))) 0 2 = 0%Qc.
Proof.
  apply (lagrangian_occ_vir_block_zero (demo_grad true) (demo_x, demo_y) true 0 2).
  - vm_compute. lia.
  - vm_compute. lia.
Defined.

(** X10.  The occupied block is taken by position: the difference densities,
    the effective-Fock intermediates and the CPHF right-hand side depend on
    [mo_occ] only through the number of its positive entries, not on where
    those entries stand. *)
Theorem occupied_block_by_position :
  forall (g g' : Gradients) (x_y : mat * mat) (singlet : bool),
    mo_coeff (td_scf (_td g)) = mo_coeff (td_scf (_td g')) ->
    get_jk (td_scf (_td g)) = get_jk (td_scf (_td g')) ->
    count_nocc (mo_occ (td_scf (_td g))) = count_nocc (mo_occ (td_scf (_td g'))) ->
    dens (trace g x_y singlet) = dens (trace g' x_y singlet)
    /\ veffs (trace g x_y singlet) = veffs (trace g' x_y singlet).
Proof.
  intros g g' x_y singlet Hc Hjk Hocc. unfold trace, trace_with.
  cbn [dens veffs]. now rewrite Hc, Hjk, Hocc.
Qed.

Lemma occupied_block_by_position_witness :
  dens (trace (demo_grad_occ [q 0 1; q 2 1; q 0 1]) (demo_x, demo_y) true)
  = dens (trace (demo_grad_occ [q 2 1; q 0 1; q 0 1]) (demo_x, demo_y) true)
  /\ veffs (trace (demo_grad_occ [q 0 1; q 2 1; q 0 1]) (demo_x, demo_y) true)
     = veffs (trace (demo_grad_occ [q 2 1; q 0 1; q 0 1]) (demo_x, demo_y) true).
Proof.
  apply (occupied_block_by_position
           (demo_grad_occ [q 0 1; q 2 1; q 0 1]) (demo_grad_occ [q 2 1; q 0 1; q 0 1])
           (demo_x, demo_y) true); reflexivity.
Defined.

(** X11.  In the Tamm-Dancoff case ([Y] the zero matrix, [X] of shape
    occ x vir) the difference densities reduce to one term each:
    [dvv[a,b] = 2 sum_i X[i,a] X[i,b]] and
    [doo[i,j] = -2 sum_a X[i,a] X[j,a]]. *)
Theorem tda_densities :
  forall (g : Gradients) (x : mat) (singlet : bool) (nocc nvir : nat),
    let mf := td_scf (_td g) in
    count_nocc (mo_occ mf) = nocc ->
    (ncols (mo_coeff mf) - nocc)%nat = nvir ->
    shape nocc nvir x ->
    (0 < nocc)%nat -> (0 < nvir)%nat ->
    let d := dens (trace g (x, zeros nocc nvir) singlet) in
    dvv d = tab nvir nvir (fun a b => (two * sum_n nocc (fun i => get x i a * get x i b))%Qc)
    /\ doo d = tab nocc nocc
                   (fun i j => (- (two * sum_n nvir (fun a => get x i a * get x j a)))%Qc).
Proof.
  intros g x singlet nocc nvir mf Hocc Hvir Hx Hnocc Hnvir d.
  unfold d. rewrite (trace_densities g _ singlet nocc nvir Hocc Hvir).
  rewrite (dvv_tab _ (zeros nocc nvir) Hx Hnocc Hnvir),
          (doo_tab _ (zeros nocc nvir) Hx Hnocc Hnvir).
  assert (Htwo : forall v : Qc, (two * v = v + v)%Qc).
  { intros v. replace two with (1 + 1)%Qc by now apply Qc_is_canon. ring. }
  split; apply tab_ext; intros p r Hp Hr.
  - unfold s_dvv, s_xpy, s_xmy. rewrite Htwo, <- sum_n_plus.
    apply sum_n_ext. intros i Hi. rewrite !get_zeros. ring.
  - unfold s_doo, s_xpy, s_xmy. rewrite Htwo.
    replace (- (sum_n nvir (fun a => get x p a * get x r a)
                + sum_n nvir (fun a => get x p a * get x r a)))%Qc
      with (- sum_n nvir (fun a => get x p a * get x r a)
            - sum_n nvir (fun a => get x p a * get x r a))%Qc by ring.
    f_equal; [f_equal|]; apply sum_n_ext; intros a Ha; rewrite !get_zeros; ring.
Qed.

Lemma tda_densities_witness :
  let d := dens (trace (demo_grad true) (demo_x, zeros 1 2) true) in
  dvv d = tab 2 2 (fun a b => (two * sum_n 1 (fun i => get demo_x i a * get demo_x i b))%Qc)
  /\ doo d = tab 1 1
                 (fun i j => (- (two * sum_n 2 (fun a => get demo_x i a * get demo_x j a)))%Qc).
Proof.
  apply (tda_densities (demo_grad true) demo_x true 1 2).
  - reflexivity.
  - reflexivity.
  - split; [reflexivity | repeat constructor].
  - lia.
  - lia.
Defined.

(* ================================================================== *)
(** * The atom loop and the driver's error and edge behaviour *)
(* ================================================================== *)

Section AtomLoop.

Lemma mapM_raise (A B : Type) (f : A -> pyres B) (l : list A) (a : A) :
  In a l -> f a = Raise IndexError -> mapM f l = Raise IndexError.
Proof.
  intros Hin Ha. induction l as [|a0 l IH]; [destruct Hin|].
  cbn. destruct Hin as [->|Hin].
  - now rewrite Ha.
  - destruct (f a0) as [b|[]]; [|reflexivity]. cbn. now rewrite (IH Hin).
Qed.

Lemma mapM_app (A B : Type) (f : A -> pyres B) (l1 l2 : list A) (b1 b2 : list B) :
  mapM f l1 = Ok b1 -> mapM f l2 = Ok b2 -> mapM f (l1 ++ l2) = Ok (b1 ++ b2).
Proof.
  revert b1. induction l1 as [|a l1 IH]; intros b1 H1 H2.
  - cbn in H1. injection H1 as <-. exact H2.
  - cbn in *. destruct (f a) as [b|e]; [|discriminate]. cbn in *.
    destruct (mapM f l1) as [bs|e]; [|discriminate]. cbn in *.
    injection H1 as <-. now rewrite (IH bs eq_refl H2).
Qed.

Lemma atom_grad_raise g v4 o dz d l ia :
  has_offsets (mol g) ia = false -> atom_grad g v4 o dz d l ia = Raise IndexError.
Proof.
  unfold has_offsets. intros H. apply Nat.ltb_ge in H. unfold atom_grad.
  now rewrite (proj2 (nth_error_None _ _) H).
Qed.

(** The result of [kernel] is the atom loop over the trace. *)
Lemma kernel_loop g x_y singlet l :
  let t := trace g x_y singlet in
  kernel g x_y singlet (Some l)
  = match mapM (atom_grad g (vhf1 t) (oo0 t) (dmz1doo t) (dens t) (lagr t)) l with
    | Raise e =>
        ([Timer "Z-vector using CPHF solver"; Timer "2e AO integral derivatives"], Raise e)
    | Ok de =>
        ([Timer "Z-vector using CPHF solver"; Timer "2e AO integral derivatives";
          Timer "TDHF nuclear gradients"], Ok de)
    end.
Proof. reflexivity. Qed.

Lemma kernel_raise_missing_offsets g x_y singlet l ia :
  In ia l -> has_offsets (mol g) ia = false ->
  kernel g x_y singlet (Some l)
  = ([Timer "Z-vector using CPHF solver"; Timer "2e AO integral derivatives"],
     Raise IndexError).
Proof.
  intros Hin Hia. rewrite kernel_loop. cbv zeta.
  rewrite (mapM_raise _ _ _ l ia Hin); [reflexivity|].
  now apply atom_grad_raise.
Qed.

End AtomLoop.

(** X12.  On arrays of the shapes the file assumes ([well_shaped]), an atom
    of the list without an entry in [mol.offset_nr_by_atom()] makes [kernel]
    raise [IndexError], whatever the other atoms are: no partial gradient
    is returned, and only the first two timers have been logged. *)
Theorem kernel_unknown_atom :
  forall (g : Gradients) (x_y : mat * mat) (singlet : bool) (l : list nat) (ia : nat)
         (nao nvir : nat),
    well_shaped g x_y nao nvir ->
    In ia l ->
    has_offsets (mol g) ia = false ->
    kernel g x_y singlet (Some l)
    = ([Timer "Z-vector using CPHF solver"; Timer "2e AO integral derivatives"],
       Raise IndexError).
Proof.
  intros g x_y singlet l ia nao nvir _ Hin Hia.
  now apply kernel_raise_missing_offsets with (ia := ia).
Qed.

Lemma kernel_unknown_atom_witness :
  kernel (demo_grad true) (demo_x, demo_y) true (Some [0; 2; 1]%nat)
  = ([Timer "Z-vector using CPHF solver"; Timer "2e AO integral derivatives"],
     Raise IndexError).
Proof.
  apply (kernel_unknown_atom (demo_grad true) (demo_x, demo_y) true [0; 2; 1]%nat 2%nat
                             3%nat 2%nat).
  - apply (@demo_well_shaped demo_mol true demo_x demo_y);
      (split; [reflexivity | repeat constructor]).
  - cbn. auto.
  - reflexivity.
Defined.

(** X13.  The gradient is computed atom by atom: the rows returned for a
    concatenated atom list are the rows returned for its two parts, in
    order, so the row of an atom does not depend on which other atoms are
    requested. *)
Theorem kernel_atom_lists_concatenate :
  forall (g : Gradients) (x_y : mat * mat) (singlet : bool) (l1 l2 : list nat)
         (m1 m2 : mat),
    snd (kernel g x_y singlet (Some l1)) = Ok m1 ->
    snd (kernel g x_y singlet (Some l2)) = Ok m2 ->
    snd (kernel g x_y singlet (Some (l1 ++ l2))) = Ok (m1 ++ m2).
Proof.
  intros g x_y singlet l1 l2 m1 m2. rewrite !kernel_loop. cbv zeta.
  set (f := atom_grad g _ _ _ _ _).
  destruct (mapM f l1) as [b1|e1] eqn:E1; cbn [snd]; [|discriminate].
  destruct (mapM f l2) as [b2|e2] eqn:E2; cbn [snd]; [|discriminate].
  intros H1 H2. injection H1 as <-. injection H2 as <-.
  now rewrite (mapM_app _ _ f l1 l2 b1 b2 E1 E2).
Qed.

Lemma kernel_atom_lists_concatenate_witness :
  exists m1 m2 : mat,
    snd (kernel (demo_grad true) (demo_x, demo_y) true (Some [1]%nat)) = Ok m1
    /\ snd (kernel (demo_grad true) (demo_x, demo_y) true (Some [0]%nat)) = Ok m2
    /\ snd (kernel (demo_grad true) (demo_x, demo_y) true (Some ([1] ++ [0])%nat))
       = Ok (m1 ++ m2).
Proof.
  destruct (snd (kernel (demo_grad true) (demo_x, demo_y) true (Some [1]%nat)))
    as [m1|e1] eqn:E1; [|vm_compute in E1; discriminate E1].
  destruct (snd (kernel (demo_grad true) (demo_x, demo_y) true (Some [0]%nat)))
    as [m2|e2] eqn:E2; [|vm_compute in E2; discriminate E2].
  exists m1, m2. split; [reflexivity|]. split; [reflexivity|].
  exact (kernel_atom_lists_concatenate (demo_grad true) (demo_x, demo_y) true
           [1]%nat [0]%nat m1 m2 E1 E2).
Defined.

(** X14.  When the amplitude pair is passed explicitly, the state index is
    only compared with 0: any two non-zero values of [state] give the same
    result and leave the same object. *)
Theorem explicit_xy_ignores_state :
  forall (self : Gradients) (v : mat * mat) (s1 s2 : Z) (singlet : option bool)
         (atmlst : option (list nat)),
    s1 <> 0%Z -> s2 <> 0%Z ->
    Gradients_kernel self (Some v) s1 singlet atmlst
    = Gradients_kernel self (Some v) s2 singlet atmlst.
Proof.
  intros self v s1 s2 singlet atmlst H1 H2. unfold Gradients_kernel.
  destruct (Z.eqb_spec s1 0); [contradiction|].
  destruct (Z.eqb_spec s2 0); [contradiction|]. reflexivity.
Qed.

Lemma explicit_xy_ignores_state_witness :
  Gradients_kernel (demo_grad true) (Some (demo_x, demo_y)) 7 None None
  = Gradients_kernel (demo_grad true) (Some (demo_x, demo_y)) (-3) None None.
Proof.
  apply (explicit_xy_ignores_state (demo_grad true) (demo_x, demo_y) 7 (-3) None None);
    discriminate.
Defined.

(** X15.  On arrays of the shapes the file assumes ([well_shaped]), an atom
    of the requested list without an entry in [mol.offset_nr_by_atom()]
    makes the driver raise [IndexError]: [self.de] keeps its previous value,
    and the log holds the sanity warnings and the first two timers of the
    kernel but no result table. *)
Theorem driver_unknown_atom :
  forall (self : Gradients) (v : mat * mat) (state : Z) (singlet : option bool)
         (l : list nat) (ia : nat) (nao nvir : nat),
    state <> 0%Z ->
    well_shaped self v nao nvir ->
    In ia l ->
    has_offsets (mol self) ia = false ->
    Gradients_kernel self (Some v) state singlet (Some l)
    = (Raise IndexError,
       log (log self (check_sanity (ext self)))
           [Timer "Z-vector using CPHF solver"; Timer "2e AO integral derivatives"])
    /\ de (snd (Gradients_kernel self (Some v) state singlet (Some l))) = de self.
Proof.
  intros self v state singlet l ia nao nvir Hs _ Hin Hia.
  assert (E : Gradients_kernel self (Some v) state singlet (Some l)
              = (Raise IndexError,
                 log (log self (check_sanity (ext self)))
                     [Timer "Z-vector using CPHF solver";
                      Timer "2e AO integral derivatives"])).
  { unfold Gradients_kernel. destruct (Z.eqb_spec state 0); [contradiction|].
    unfold grad_elec.
    rewrite (kernel_raise_missing_offsets (log self (check_sanity (ext self))) v _ l ia Hin Hia).
    reflexivity. }
  split; [exact E | now rewrite E].
Qed.

Lemma driver_unknown_atom_witness :
  let self := demo_grad true in
  Gradients_kernel self (Some (demo_x, demo_y)) 1 None (Some [5]%nat)
  = (Raise IndexError,
     log (log self (check_sanity (ext self)))
         [Timer "Z-vector using CPHF solver"; Timer "2e AO integral derivatives"])
  /\ de (snd (Gradients_kernel self (Some (demo_x, demo_y)) 1 None (Some [5]%nat)))
     = de self.
Proof.
  apply (driver_unknown_atom (demo_grad true) (demo_x, demo_y) 1 None [5]%nat 5%nat
                             3%nat 2%nat).
  - discriminate.
  - apply (@demo_well_shaped demo_mol true demo_x demo_y);
      (split; [reflexivity | repeat constructor]).
  - cbn. auto.
  - reflexivity.
Defined.

(** X16.  On arrays of the shapes the file assumes ([well_shaped], and
    [grad_nuc] returning the empty array for the empty list), with an
    empty atom list the driver still runs the whole pipeline (the three
    timers of the kernel are logged), returns the empty array and stores it
    in [self.de]; the logged table has no row. *)
Theorem driver_empty_atom_list :
  forall (self : Gradients) (v : mat * mat) (state : Z) (singlet : option bool)
         (nao nvir : nat),
    state <> 0%Z ->
    well_shaped self v nao nvir ->
    shape 0 3 (grad_nuc (ext self) []) ->
    fst (Gradients_kernel self (Some v) state singlet (Some [])) = Ok []
    /\ de (snd (Gradients_kernel self (Some v) state singlet (Some []))) = DeArray []
    /\ stdout (snd (Gradients_kernel self (Some v) state singlet (Some [])))
       = stdout self ++ check_sanity (ext self)
         ++ [Timer "Z-vector using CPHF solver"; Timer "2e AO integral derivatives";
             Timer "TDHF nuclear gradients";
             Note "--------------";
             Note "           x                y                z";
             Note "--------------"; Timer "TD gradients"].
Proof.
  intros self v state singlet nao nvir Hs _ _. unfold Gradients_kernel.
  destruct (Z.eqb_spec state 0); [contradiction|].
  unfold grad_elec. rewrite kernel_loop. cbv zeta. cbn [mapM].
  cbn [fst snd de set_de log stdout report length seq combine map app add zip nrows tab].
  split; [reflexivity|]. split; [reflexivity|].
  now rewrite <- !app_assoc.
Qed.

Lemma driver_empty_atom_list_witness :
  let self := demo_grad true in
  fst (Gradients_kernel self (Some (demo_x, demo_y)) 1 None (Some [])) = Ok []
  /\ de (snd (Gradients_kernel self (Some (demo_x, demo_y)) 1 None (Some []))) = DeArray []
  /\ stdout (snd (Gradients_kernel self (Some (demo_x, demo_y)) 1 None (Some [])))
     = stdout self ++ check_sanity (ext self)
       ++ [Timer "Z-vector using CPHF solver"; Timer "2e AO integral derivatives";
           Timer "TDHF nuclear gradients";
           Note "--------------";
           Note "           x                y                z";
           Note "--------------"; Timer "TD gradients"].
Proof.
  apply (driver_empty_atom_list (demo_grad true) (demo_x, demo_y) 1 None 3%nat 2%nat).
  - discriminate.
  - apply (@demo_well_shaped demo_mol true demo_x demo_y);
      (split; [reflexivity | repeat constructor]).
  - split; [reflexivity | constructor].
Defined.

Lemma map_combine_seq (A B : Type) (F : nat -> A -> B) (d : A) (l : list A) (s : nat) :
  map (fun '(k, a) => F k a) (combine (seq s (length l)) l)
  = map (fun k => F k (nth (k - s) l d)) (seq s (length l)).
Proof.
  revert s. induction l as [|a l IH]; intros s; [reflexivity|].
  cbn [length seq combine map]. rewrite Nat.sub_diag. cbn [nth]. f_equal.
  rewrite IH. apply map_ext_in. intros k Hk. apply in_seq in Hk.
  replace (k - s)%nat with (S (k - S s)) by lia. reflexivity.
Qed.

(** X17.  When the driver returns an array, that array is what it stored in
    [self.de], and the logged table has one row per requested atom, in the
    order of the list: row [k] shows the atom [atmlst[k]], its symbol and
    the three entries of row [k] of the returned (electronic plus nuclear)
    gradient. *)
Theorem driver_report_rows :
  forall (self : Gradients) (v : mat * mat) (state : Z) (singlet : option bool)
         (l : list nat) (res : mat),
    state <> 0%Z ->
    fst (Gradients_kernel self (Some v) state singlet (Some l)) = Ok res ->
    de (snd (Gradients_kernel self (Some v) state singlet (Some l))) = DeArray res
    /\ stdout (snd (Gradients_kernel self (Some v) state singlet (Some l)))
       = stdout self ++ check_sanity (ext self)
         ++ [Timer "Z-vector using CPHF solver"; Timer "2e AO integral derivatives";
             Timer "TDHF nuclear gradients";
             Note "--------------";
             Note "           x                y                z"]
         ++ map (fun k => NoteRow (nth k l 0%nat) (atom_symbol (mol self) (nth k l 0%nat))
                                  (get res k 0) (get res k 1) (get res k 2))
                (seq 0 (length l))
         ++ [Note "--------------"; Timer "TD gradients"].
Proof.
  intros self v state singlet l res Hs. unfold Gradients_kernel.
  destruct (Z.eqb_spec state 0); [contradiction|].
  unfold grad_elec. rewrite kernel_loop. cbv zeta.
  destruct (mapM _ l) as [de0|e]; cbn [fst snd]; [|discriminate].
  intros H. injection H as <-.
  cbn [de set_de log stdout mol ext].
  split; [reflexivity|].
  unfold report. cbn [mol log set_de].
  rewrite (map_combine_seq _ _ _ 0%nat l 0).
  rewrite <- !app_assoc. cbn [app]. do 2 f_equal. do 5 f_equal.
  f_equal. apply map_ext. intros k. now rewrite Nat.sub_0_r.
Qed.

Lemma driver_report_rows_witness :
  let self := demo_grad true in
  exists res : mat,
    de (snd (Gradients_kernel self (Some (demo_x, demo_y)) 1 None (Some [1]%nat)))
    = DeArray res
    /\ stdout (snd (Gradients_kernel self (Some (demo_x, demo_y)) 1 None (Some [1]%nat)))
       = stdout self ++ check_sanity (ext self)
         ++ [Timer "Z-vector using CPHF solver"; Timer "2e AO integral derivatives";
             Timer "TDHF nuclear gradients";
             Note "--------------";
             Note "           x                y                z"]
         ++ map (fun k => NoteRow (nth k [1]%nat 0%nat)
                                  (atom_symbol (mol self) (nth k [1]%nat 0%nat))
                                  (get res k 0) (get res k 1) (get res k 2))
                (seq 0 1)
         ++ [Note "--------------"; Timer "TD gradients"].
Proof.
  intros self.
  destruct (fst (Gradients_kernel self (Some (demo_x, demo_y)) 1 None (Some [1]%nat)))
    as [res|e] eqn:E; [|vm_compute in E; discriminate E].
  exists res.
  apply (driver_report_rows self (demo_x, demo_y) 1 None [1]%nat res).
  - discriminate.
  - exact E.
Defined.

(* ================================================================== *)
(** * An atom without basis functions *)
(* ================================================================== *)

Section EmptyRange.

Local Open Scope Qc_scope.

Lemma rows_empty p (m : mat) : rows p p m = [].
Proof. unfold rows. apply skipn_all2. rewrite length_firstn. lia. Qed.

Lemma ncols_cols_empty p (m : mat) : ncols (cols p p m) = 0%nat.
Proof.
  unfold ncols, cols. destruct m as [|r m]; [reflexivity|]. cbn [map hd].
  rewrite skipn_all2; [reflexivity | rewrite length_firstn; lia].
Qed.

Lemma t3_rows_empty p (t : tensor3) : t3_rows p p t = map (fun _ => []) t.
Proof. unfold t3_rows. apply map_ext. intros m. apply rows_empty. Qed.

Lemma tab1_at1 (v : vec) : tab1 (length v) (at1 v) = v.
Proof.
  apply nth_ext with (d := 0) (d' := 0); [apply length_tab1|].
  intros i Hi. rewrite length_tab1 in Hi.
  change (at1 (tab1 (length v) (at1 v)) i = at1 v i). now apply at1_tab1.
Qed.

Lemma at1_const0 (A : Type) (t : list A) i : at1 (map (fun _ => 0) t) i = 0.
Proof.
  unfold at1. revert i. induction t as [|a t IH]; intros [|i]; cbn; auto.
Qed.

Lemma einsum_xpq_pq_x_nil t : einsum_xpq_pq_x t [] = map (fun _ => 0) t.
Proof. reflexivity. Qed.

Lemma einsum_xqp_pq_x_no_cols t m :
  ncols m = 0%nat -> einsum_xqp_pq_x t m = map (fun _ => 0) t.
Proof.
  intros H. unfold einsum_xqp_pq_x. rewrite H. apply map_ext. intros tx.
  apply sum_n_zero.
Qed.

Lemma vzip_zero_r (f : Qc -> Qc -> Qc) (dek z : vec) :
  (forall v, f v 0 = v) -> (forall i, at1 z i = 0) -> vzip f dek z = dek.
Proof.
  intros Hf Hz. unfold vzip. transitivity (tab1 (length dek) (at1 dek)).
  - apply tab1_ext. intros i _. now rewrite Hz, Hf.
  - apply tab1_at1.
Qed.

Lemma at1_vmuls_zero (z : vec) k :
  (forall i, at1 z i = 0) -> forall i, at1 (vmuls z k) i = 0.
Proof.
  intros Hz i. unfold vmuls, at1.
  rewrite (nth_map_0 (fun v => v * k)) by ring.
  fold (at1 z i). rewrite Hz. ring.
Qed.

Lemma map_nth_seq (A : Type) (d : A) (l : list A) :
  map (fun x => nth x l d) (seq 0 (length l)) = l.
Proof.
  apply nth_ext with (d := d) (d' := d); [now rewrite length_map, length_seq|].
  intros i Hi. rewrite length_map, length_seq in Hi.
  now rewrite (@nth_map_seq A (fun x => nth x l d) (length l) i d Hi).
Qed.

(** Adding into an empty row or column range leaves a rectangular array as
    it is. *)
Lemma iadd_block_empty_rows hx p c0 c1 b :
  shape (nrows hx) (ncols hx) hx -> iadd_block hx p p c0 c1 b = hx.
Proof.
  intros H. unfold iadd_block. transitivity (tab (nrows hx) (ncols hx) (get hx)).
  - apply tab_ext. intros i j _ _. unfold in_range.
    destruct (Nat.leb_spec p i), (Nat.ltb_spec i p); try lia; reflexivity.
  - now apply tab_get.
Qed.

Lemma iadd_block_empty_cols hx p r0 r1 b :
  shape (nrows hx) (ncols hx) hx -> iadd_block hx r0 r1 p p b = hx.
Proof.
  intros H. unfold iadd_block. transitivity (tab (nrows hx) (ncols hx) (get hx)).
  - apply tab_ext. intros i j _ _. unfold in_range.
    destruct (Nat.leb_spec p j), (Nat.ltb_spec j p); try lia;
      rewrite ?andb_false_r; reflexivity.
  - now apply tab_get.
Qed.

Lemma t3_iadd_rows_empty (h : tensor3) p v :
  Forall (fun hx => shape (nrows hx) (ncols hx) hx) h -> t3_iadd_rows h p p v = h.
Proof.
  intros H. unfold t3_iadd_rows, t3_zip.
  transitivity (map (fun x0 => nth x0 h []) (seq 0 (length h))).
  - apply map_ext_in. intros x0 Hx.
    apply in_seq in Hx. apply iadd_block_empty_rows.
    rewrite Forall_forall in H. apply H. apply nth_In. lia.
  - apply map_nth_seq.
Qed.

Lemma t3_iadd_cols_empty (h : tensor3) p v :
  Forall (fun hx => shape (nrows hx) (ncols hx) hx) h -> t3_iadd_cols h p p v = h.
Proof.
  intros H. unfold t3_iadd_cols, t3_zip.
  transitivity (map (fun x0 => nth x0 h []) (seq 0 (length h))).
  - apply map_ext_in. intros x0 Hx.
    apply in_seq in Hx. apply iadd_block_empty_cols.
    rewrite Forall_forall in H. apply H. apply nth_In. lia.
  - apply map_nth_seq.
Qed.

Lemma atom_grad_empty_range g v4 o dz d l ia shl0 shl1 p :
  nth_error (offset_nr_by_atom (mol g)) ia = Some (shl0, shl1, p, p) ->
  Forall (fun hx => shape (nrows hx) (ncols hx) hx) (hcore_generator (ext g) ia) ->
  atom_grad g v4 o dz d l ia
  = Ok (tab1 3 (fun x0 =>
                  at1 (einsum_xpq_pq_x (hcore_generator (ext g) ia) o) x0 * two
                  + at1 (einsum_xpq_pq_x (hcore_generator (ext g) ia) dz) x0)).
Proof.
  intros Hoff Hh. unfold atom_grad. rewrite Hoff.
  rewrite (t3_iadd_rows_empty _ p _ Hh), (t3_iadd_cols_empty _ p _ Hh).
  rewrite !rows_empty, !t3_rows_empty, !einsum_xpq_pq_x_nil.
  rewrite !(einsum_xqp_pq_x_no_cols _ _ (ncols_cols_empty p _)).
  unfold vadd at 1 2 3 4, vsub.
  rewrite !vzip_zero_r;
    try (intros; ring);
    try (intros i; first [ apply at1_const0 | apply at1_vmuls_zero; intros; apply at1_const0 ]).
  f_equal. unfold vadd, vzip, vset. rewrite length_tab1. cbn [length].
  apply tab1_ext. intros x0 Hx. rewrite at1_tab1 by assumption.
  unfold vmuls, at1. now rewrite (nth_map_0 (fun v => v * two)) by ring.
Qed.

End EmptyRange.

(** X18.  On arrays of the shapes the file assumes ([well_shaped]), an atom
    whose AO range [p0:p1] is empty (a centre without basis functions) gets
    its gradient row from the core-Hamiltonian derivative alone, contracted
    with [2*oo0 + dmz1doo]: the two-electron derivative, overlap and
    transition-density terms of the loop body all vanish. *)
Theorem atom_without_basis_functions :
  forall (g : Gradients) (x_y : mat * mat) (singlet : bool)
         (ia shl0 shl1 p : nat) (nao nvir : nat),
    well_shaped g x_y nao nvir ->
    nth_error (offset_nr_by_atom (mol g)) ia = Some (shl0, shl1, p, p) ->
    let t := trace g x_y singlet in
    let h1ao := hcore_generator (ext g) ia in
    kernel g x_y singlet (Some [ia])
    = ([Timer "Z-vector using CPHF solver"; Timer "2e AO integral derivatives";
        Timer "TDHF nuclear gradients"],
       Ok [tab1 3 (fun x0 => (at1 (einsum_xpq_pq_x h1ao (oo0 t)) x0 * two
                              + at1 (einsum_xpq_pq_x h1ao (dmz1doo t)) x0)%Qc)]).
Proof.
  intros g x_y singlet ia shl0 shl1 p nao nvir Hws Hoff t h1ao.
  assert (Hh : Forall (fun hx => shape (nrows hx) (ncols hx) hx)
                      (hcore_generator (ext g) ia)).
  { destruct (ws_hcore Hws ia) as [_ Hf].
    apply (Forall_impl _ (P := shape nao nao)); [|exact Hf].
    intros hx H. now rewrite (shape_nrows H), (shape_ncols H (ws_nao Hws)). }
  rewrite kernel_loop. cbv zeta. fold t. cbn [mapM].
  rewrite (atom_grad_empty_range g _ _ _ _ _ ia shl0 shl1 p Hoff Hh).
  reflexivity.
Qed.

Lemma atom_without_basis_functions_witness :
  let g := demo_grad_ghost in
  let t := trace g (demo_x, demo_y) true in
  let h1ao := hcore_generator (ext g) 2 in
  kernel g (demo_x, demo_y) true (Some [2%nat])
  = ([Timer "Z-vector using CPHF solver"; Timer "2e AO integral derivatives";
      Timer "TDHF nuclear gradients"],
     Ok [tab1 3 (fun x0 => (at1 (einsum_xpq_pq_x h1ao (oo0 t)) x0 * two
                            + at1 (einsum_xpq_pq_x h1ao (dmz1doo t)) x0)%Qc)]).
Proof.
  intros g t h1ao.
  apply (atom_without_basis_functions g (demo_x, demo_y) true 2%nat 3%nat 3%nat 3%nat
                                      3%nat 2%nat).
  - apply (@demo_well_shaped (mol demo_grad_ghost) true demo_x demo_y);
      (split; [reflexivity | repeat constructor]).
  - reflexivity.
Defined.

(* ================================================================== *)
(** * Entries of the CPHF right-hand side and of the Lagrangian blocks *)
(* ================================================================== *)

Section ResponseEntries.

Local Open Scope Qc_scope.

Variables (c : mat) (nao nocc nvir : nat).
Hypothesis Hc : shape nao (nocc + nvir) c.
Hypothesis Hnao : (0 < nao)%nat.
Hypothesis Hnocc : (0 < nocc)%nat.
Hypothesis Hnvir : (0 < nvir)%nat.

Lemma shape_rows_to r k n (m : mat) :
  shape r k m -> (n <= r)%nat -> shape n k (rows_to n m).
Proof.
  intros [Hl Hf] Hn. unfold rows_to. split.
  - rewrite length_firstn. lia.
  - rewrite <- (firstn_skipn n m) in Hf. now apply Forall_app in Hf.
Qed.

Lemma shape_rows_from r k n (m : mat) :
  shape r k m -> shape (r - n) k (rows_from n m).
Proof.
  intros [Hl Hf]. unfold rows_from. split.
  - rewrite length_skipn. lia.
  - rewrite <- (firstn_skipn n m) in Hf. now apply Forall_app in Hf.
Qed.

Lemma shape_mo_transform veff : shape (nocc + nvir) (nocc + nvir) (dot3 (T c) veff c).
Proof.
  assert (H : nrows (dot (T c) veff) = (nocc + nvir)%nat).
  { unfold dot, T. now rewrite !nrows_tab, (shape_ncols Hc Hnao). }
  unfold dot3. unfold dot at 1. rewrite H, (shape_ncols Hc Hnao). apply shape_tab.
Qed.

Lemma shape_xpy x_y : shape nvir nocc (xpy (densities c nocc nvir x_y)).
Proof.
  destruct x_y as [x y]. unfold densities. cbn [xpy].
  unfold reshape, reshape_vec, T. rewrite nrows_tab, (ncols_tab _ _ Hnocc).
  apply shape_tab.
Qed.

Lemma shape_xmy x_y : shape nvir nocc (xmy (densities c nocc nvir x_y)).
Proof.
  destruct x_y as [x y]. unfold densities. cbn [xmy].
  unfold reshape, reshape_vec, T. rewrite nrows_tab, (ncols_tab _ _ Hnocc).
  apply shape_tab.
Qed.

Section Blocks.

Variables (V P : mat).
Hypothesis HV : shape (nocc + nvir) (nocc + nvir) V.
Hypothesis HP : shape nvir nocc P.

Lemma shape_oo : shape nocc nocc (cols_to nocc (rows_to nocc V)).
Proof.
  apply shape_cols_to with (c := (nocc + nvir)%nat); [|lia].
  apply shape_rows_to with (r := (nocc + nvir)%nat); [assumption | lia].
Qed.

Lemma shape_vo : shape nvir nocc (cols_to nocc (rows_from nocc V)).
Proof.
  apply shape_cols_to with (c := (nocc + nvir)%nat); [|lia].
  pose proof (shape_rows_from _ _ nocc _ HV) as H.
  now replace (nocc + nvir - nocc)%nat with nvir in H by lia.
Qed.

Lemma shape_vv : shape nvir nvir (cols_from nocc (rows_from nocc V)).
Proof.
  pose proof (shape_cols_from nocc (shape_rows_from _ _ nocc _ HV)) as H.
  now replace (nocc + nvir - nocc)%nat with nvir in H by lia.
Qed.

Lemma einsum_ki_ai_ak_oo :
  einsum_ki_ai_ak (cols_to nocc (rows_to nocc V)) P
  = tab nvir nocc (fun a k => sum_n nocc (fun i => get V k i * get P a i)).
Proof.
  unfold einsum_ki_ai_ak.
  rewrite (shape_nrows HP), (shape_nrows shape_oo), (shape_ncols shape_oo Hnocc).
  apply tab_ext. intros a k Ha Hk. apply sum_n_ext. intros i Hi.
  now rewrite get_cols_to, get_rows_to.
Qed.

Lemma einsum_ac_ai_ci_vv :
  einsum_ac_ai_ci (cols_from nocc (rows_from nocc V)) P
  = tab nvir nocc (fun b i => sum_n nvir (fun a => get V (nocc + a) (nocc + b) * get P a i)).
Proof.
  unfold einsum_ac_ai_ci.
  rewrite (einsum_ai_aj_ij_shape shape_vv HP Hnvir).
  apply tab_ext. intros b i Hb Hi. apply sum_n_ext. intros a Ha.
  now rewrite get_cols_from, get_rows_from.
Qed.

Lemma einsum_ak_ai_ki_vo :
  einsum_ak_ai_ki (cols_to nocc (rows_from nocc V)) P
  = tab nocc nocc (fun k i => sum_n nvir (fun a => get V (nocc + a) k * get P a i)).
Proof.
  unfold einsum_ak_ai_ki.
  rewrite (einsum_ai_aj_ij_shape shape_vo HP Hnvir).
  apply tab_ext. intros k i Hk Hi. apply sum_n_ext. intros a Ha.
  now rewrite get_cols_to, get_rows_from.
Qed.

Lemma einsum_ci_ai_ac_vo :
  einsum_ci_ai_ac (cols_to nocc (rows_from nocc V)) P
  = tab nvir nvir (fun a b => sum_n nocc (fun i => get V (nocc + b) i * get P a i)).
Proof.
  unfold einsum_ci_ai_ac, einsum_ki_ai_ak.
  rewrite (shape_nrows HP), (shape_nrows shape_vo), (shape_ncols shape_vo Hnvir).
  apply tab_ext. intros a b Ha Hb. apply sum_n_ext. intros i Hi.
  now rewrite get_cols_to, get_rows_from.
Qed.

End Blocks.

Lemma dot3_orbv_orbo W :
  shape nao nao W ->
  dot3 (T (cols_from nocc c)) W (cols_to nocc c)
  = tab nvir nocc (fun a i =>
      sum_n nao (fun r => sum_n nao (fun s => get c s (nocc + a) * get W s r) * get c r i)).
Proof.
  intros HW.
  rewrite (@orbv_tab c nao nocc nvir Hc), (@orbo_tab c nao nocc nvir Hc) by assumption.
  unfold dot3. rewrite (T_shape (shape_tab _ _ _) Hnao).
  rewrite (dot_shape (shape_tab _ _ _) HW Hnvir Hnao).
  rewrite (dot_shape (shape_tab _ _ _) (shape_tab _ _ _) Hnvir Hnao).
  apply tab_ext. intros a i Ha Hi. apply sum_n_ext. intros r Hr.
  rewrite !get_tab by assumption. f_equal.
  apply sum_n_ext. intros s Hs. rewrite !get_tab by assumption. reflexivity.
Qed.

Lemma dot3_orbo_orbo W :
  shape nao nao W ->
  dot3 (T (cols_to nocc c)) W (cols_to nocc c)
  = tab nocc nocc (fun k i =>
      sum_n nao (fun u => sum_n nao (fun t => get c t k * get W t u) * get c u i)).
Proof.
  intros HW. rewrite (@orbo_tab c nao nocc nvir Hc) by assumption.
  unfold dot3. rewrite (T_shape (shape_tab _ _ _) Hnao).
  rewrite (dot_shape (shape_tab _ _ _) HW Hnocc Hnao).
  rewrite (dot_shape (shape_tab _ _ _) (shape_tab _ _ _) Hnocc Hnao).
  apply tab_ext. intros a i Ha Hi. apply sum_n_ext. intros r Hr.
  rewrite !get_tab by assumption. f_equal.
  apply sum_n_ext. intros s Hs. rewrite !get_tab by assumption. reflexivity.
Qed.

Lemma veff_build_fields jk singlet d :
  let v := veff_build jk c nocc singlet d in
  shape (nocc + nvir) (nocc + nvir) (veff0mop v)
  /\ shape (nocc + nvir) (nocc + nvir) (veff0mom v)
  /\ wvo v
     = add (sub (add (sub
         (muls (dot3 (T (cols_from nocc c)) (veff0doo v) (cols_to nocc c)) two)
         (muls (einsum_ki_ai_ak (cols_to nocc (rows_to nocc (veff0mop v))) (xpy d)) two))
         (muls (einsum_ac_ai_ci (cols_from nocc (rows_from nocc (veff0mop v))) (xpy d)) two))
         (muls (einsum_ki_ai_ak (cols_to nocc (rows_to nocc (veff0mom v))) (xmy d)) two))
         (muls (einsum_ac_ai_ci (cols_from nocc (rows_from nocc (veff0mom v))) (xmy d)) two).
Proof.
  unfold veff_build. destruct (jk _) as [vj vk].
  cbn [veff0mop veff0mom veff0doo wvo].
  split; [apply shape_mo_transform|]. split; [apply shape_mo_transform|]. reflexivity.
Qed.

Lemma wvo_tab jk singlet x_y :
  let d := densities c nocc nvir x_y in
  let v := veff_build jk c nocc singlet d in
  shape nao nao (veff0doo v) ->
  wvo v = tab nvir nocc
              (s_wvo c (veff0doo v) (veff0mop v) (veff0mom v) (xpy d) (xmy d) nao nocc nvir).
Proof.
  intros d v H0.
  pose proof (veff_build_fields jk singlet d) as H. cbv zeta in H. fold v in H.
  destruct H as (Hp & Hm & Hw). rewrite Hw. clear Hw.
  pose proof (shape_xpy x_y) as HP. pose proof (shape_xmy x_y) as HM. fold d in HP, HM.
  rewrite (dot3_orbv_orbo _ H0).
  rewrite (einsum_ki_ai_ak_oo _ _ Hp HP), (einsum_ki_ai_ak_oo _ _ Hm HM).
  rewrite (einsum_ac_ai_ci_vv _ _ Hp HP), (einsum_ac_ai_ci_vv _ _ Hm HM).
  unfold add, sub.
  rewrite (zip_shape _ _ (shape_muls two (shape_tab _ _ _)) Hnvir).
  rewrite !(zip_shape _ _ (shape_tab _ _ _) Hnvir).
  apply tab_ext. intros a i Ha Hi.
  rewrite !get_tab by assumption. rewrite !get_muls. rewrite !get_tab by assumption.
  reflexivity.
Qed.

Lemma im0_mo_tab jk e d v z :
  shape nao nao (veff0doo v) ->
  shape (nocc + nvir) (nocc + nvir) (veff0mop v) ->
  shape (nocc + nvir) (nocc + nvir) (veff0mom v) ->
  shape nvir nocc (xpy d) -> shape nvir nocc (xmy d) ->
  let z1ao := dot3 (cols_from nocc c) z (T (cols_to nocc c)) in
  let w := add (veff0doo v) (sub (muls (fst (jk z1ao)) two) (snd (jk z1ao))) in
  im0_mo (lagrangian jk c e nocc (nocc + nvir) d v z)
  = tab (nocc + nvir) (nocc + nvir)
        (s_im0 c w (veff0mop v) (veff0mom v) (xpy d) (xmy d) nao nocc nvir).
Proof.
  intros H0 Hp Hm HP HM z1ao w.
  assert (Hnmo : (0 < nocc + nvir)%nat) by lia.
  assert (Hw : shape nao nao w) by (apply shape_add; assumption).
  unfold lagrangian. fold z1ao. destruct (jk z1ao) as [vj vk] eqn:Ejk.
  cbn [fst snd] in w. fold w. cbn [im0_mo].
  rewrite (set_block_shape (shape_zeros _ _) Hnmo).
  repeat (first [ rewrite (iadd_block_shape (shape_tab _ _ _) Hnmo)
                | rewrite (set_block_shape (shape_tab _ _ _) Hnmo) ]).
  apply tab_ext. intros r s Hr Hs. rewrite !get_tab by assumption.
  unfold zeros. rewrite get_tab by assumption.
  unfold s_im0, in_range.
  destruct (Nat.ltb_spec r nocc), (Nat.ltb_spec s nocc);
    repeat match goal with
           | |- context [Nat.leb ?a ?b] => destruct (Nat.leb_spec a b); try lia
           | |- context [Nat.ltb ?a ?b] => destruct (Nat.ltb_spec a b); try lia
           end; cbn [andb]; rewrite ?Nat.sub_0_r.
  - rewrite (dot3_orbo_orbo _ Hw).
    rewrite (einsum_ak_ai_ki_vo _ _ Hp HP), (einsum_ak_ai_ki_vo _ _ Hm HM).
    now rewrite !get_tab by assumption.
  - reflexivity.
  - rewrite (einsum_ki_ai_ak_oo _ _ Hp HP), (einsum_ki_ai_ak_oo _ _ Hm HM).
    rewrite !get_muls, !get_tab by lia. reflexivity.
  - rewrite (einsum_ci_ai_ac_vo _ _ Hp HP), (einsum_ci_ai_ac_vo _ _ Hm HM).
    rewrite !get_tab by lia.
    replace (nocc + (s - nocc))%nat with s by lia. reflexivity.
Qed.

End ResponseEntries.

Lemma veff0doo_batch jk c nocc singlet d :
  veff0doo (veff_build (jk_batch jk) c nocc singlet d)
  = sub (muls (fst (jk (dmzoo d))) two) (snd (jk (dmzoo d))).
Proof. reflexivity. Qed.

Lemma z1ao_lagrangian jk c e nocc nmo d v z :
  z1ao (lagrangian jk c e nocc nmo d v z)
  = dot3 (cols_from nocc c) z (T (cols_to nocc c)).
Proof. unfold lagrangian. now destruct (jk _). Qed.

Lemma shape_veff0doo jk c nocc singlet d nao :
  shape nao nao (fst (jk (dmzoo d))) ->
  shape nao nao (veff0doo (veff_build (jk_batch jk) c nocc singlet d)).
Proof.
  intros H. rewrite veff0doo_batch. unfold sub.
  destruct nao as [|n].
  - destruct H as [Hl _]. apply length_zero_iff_nil in Hl.
    rewrite Hl. cbn. split; [reflexivity | constructor].
  - rewrite (zip_shape _ _ (shape_muls two H) (Nat.lt_0_succ n)). apply shape_tab.
Qed.

(** X19.  The CPHF right-hand side, entry by entry: for a virtual [a] and an
    occupied [i], [wvo[a,i]] is twice the vir-occ element of the MO
    transform of [veff0doo], minus twice the contraction of the occ-occ
    blocks of [veff0mop], [veff0mom] with row [a] of [X+Y], [X-Y], plus
    twice the contraction of their vir-vir blocks with column [i]. *)
Theorem cphf_rhs_entries :
  forall (g : Gradients) (x_y : mat * mat) (singlet : bool) (nao nvir : nat),
    let mf := td_scf (_td g) in
    let nocc := count_nocc (mo_occ mf) in
    let t := trace g x_y singlet in
    let v := veffs t in
    shape nao (nocc + nvir) (mo_coeff mf) ->
    (0 < nao)%nat -> (0 < nocc)%nat -> (0 < nvir)%nat ->
    shape nao nao (fst (get_jk mf (dmzoo (dens t)))) ->
    wvo v = tab nvir nocc
                (s_wvo (mo_coeff mf) (veff0doo v) (veff0mop v) (veff0mom v)
                       (xpy (dens t)) (xmy (dens t)) nao nocc nvir).
Proof.
  intros g x_y singlet nao nvir mf nocc t v Hc Hnao Hnocc Hnvir HJ.
  unfold v, t, trace, trace_with in *. cbn [veffs dens] in *. fold mf in HJ |- *.
  fold nocc in HJ |- *. rewrite (shape_ncols Hc Hnao) in HJ |- *.
  replace (nocc + nvir - nocc)%nat with nvir in HJ |- * by lia.
  apply (wvo_tab (mo_coeff mf) nao nocc nvir Hc Hnao Hnocc Hnvir).
  now apply shape_veff0doo.
Qed.

Lemma cphf_rhs_entries_witness :
  let g := demo_grad true in
  let t := trace g (demo_x, demo_y) true in
  let v := veffs t in
  wvo v = tab 2 1
              (s_wvo (mo_coeff demo_scf) (veff0doo v) (veff0mop v) (veff0mom v)
                     (xpy (dens t)) (xmy (dens t)) 3 1 2).
Proof.
  apply (cphf_rhs_entries (demo_grad true) (demo_x, demo_y) true 3 2).
  - split; [reflexivity | repeat constructor].
  - lia.
  - cbn. lia.
  - lia.
  - split; [reflexivity | repeat constructor].
Defined.

(** X20.  The Lagrangian [im0] before the energy weighting, block by block:
    the occ-occ block is the MO transform of [veff0doo + veff] plus the
    contractions of the vir-occ blocks of [veff0mop], [veff0mom] with
    [X+Y], [X-Y] over the virtual index; the vir-vir and vir-occ blocks
    contract row [s] of [veff0mop], [veff0mom] with row [r - nocc] of
    [X+Y], [X-Y] over the occupied index, with a factor two in the vir-occ
    block; the occ-vir block is zero. *)
Theorem lagrangian_block_entries :
  forall (g : Gradients) (x_y : mat * mat) (singlet : bool) (nao nvir : nat),
    let mf := td_scf (_td g) in
    let nocc := count_nocc (mo_occ mf) in
    let t := trace g x_y singlet in
    let v := veffs t in
    let jz := get_jk mf (z1ao (lagr t)) in
    shape nao (nocc + nvir) (mo_coeff mf) ->
    (0 < nao)%nat -> (0 < nocc)%nat -> (0 < nvir)%nat ->
    shape nao nao (fst (get_jk mf (dmzoo (dens t)))) ->
    im0_mo (lagr t)
    = tab (nocc + nvir) (nocc + nvir)
          (s_im0 (mo_coeff mf)
                 (add (veff0doo v) (sub (muls (fst jz) two) (snd jz)))
                 (veff0mop v) (veff0mom v)
                 (xpy (dens t)) (xmy (dens t)) nao nocc nvir).
Proof.
  intros g x_y singlet nao nvir mf nocc t v jz Hc Hnao Hnocc Hnvir HJ.
  unfold jz, v, t, trace, trace_with in *. cbn [veffs dens lagr] in *.
  fold mf in HJ |- *. fold nocc in HJ |- *.
  rewrite (shape_ncols Hc Hnao) in HJ |- *.
  replace (nocc + nvir - nocc)%nat with nvir in HJ |- * by lia.
  rewrite z1ao_lagrangian.
  destruct (veff_build_fields (mo_coeff mf) nao nocc nvir Hc Hnao
              (jk_batch (get_jk mf)) singlet
              (densities (mo_coeff mf) nocc nvir x_y)) as (Hp & Hm & _).
  apply (im0_mo_tab (mo_coeff mf) nao nocc nvir Hc Hnao Hnocc Hnvir).
  - now apply shape_veff0doo.
  - exact Hp.
  - exact Hm.
  - now apply shape_xpy.
  - now apply shape_xmy.
Qed.

Lemma lagrangian_block_entries_witness :
  let g := demo_grad true in
  let t := trace g (demo_x, demo_y) true in
  let v := veffs t in
  let jz := get_jk demo_scf (z1ao (lagr t)) in
  im0_mo (lagr t)
  = tab 3 3
        (s_im0 (mo_coeff demo_scf)
               (add (veff0doo v) (sub (muls (fst jz) two) (snd jz)))
               (veff0mop v) (veff0mom v)
               (xpy (dens t)) (xmy (dens t)) 3 1 2).
Proof.
  apply (lagrangian_block_entries (demo_grad true) (demo_x, demo_y) true 3 2).
  - split; [reflexivity | repeat constructor].
  - lia.
  - cbn. lia.
  - lia.
  - split; [reflexivity | repeat constructor].
Defined.
